(** * http-honeylog: the ingestion handler of [main.go]

    A shallow embedding of [readNewData], [cleanData] and
    [determineSampleRate], and the properties of the sampling and
    event-shaping pipeline that hold of them.

    The program calls into [bufio], [encoding/json], [fmt], [reflect],
    [math/rand], [urlshaper], [dynsampler] and [libhoney].  What the handler
    relies on from [bufio.Scanner], [fmt.Sprintf "%v"], [strings.Join],
    [reflect.TypeOf] and [rand.Intn] is written out below after the
    documentation of those packages; the decoders, the sampler, the random
    source and the telemetry sink are the fields of the class [Externals]. *)

From Stdlib Require Import ZArith String Ascii List Lia.
From Stdlib Require Import Floats.PrimFloat.
From stdpp Require Import gmap strings list fin_maps.

Local Open Scope string_scope.
Local Open Scope list_scope.
Local Open Scope Z_scope.

(** ** Values decoded by [encoding/json] into [interface{}] *)

(** [json.Unmarshal] into a [map[string]interface{}] stores a string as
    [string], a number as [float64], a boolean as [bool], null as the nil
    interface, an array as [[]interface{}] and an object as
    [map[string]interface{}].  A nested object keeps its entries in the
    order in which [fmt] prints a map, by increasing key. *)
#[warning="-register-all"]
Inductive value : Type :=
| VString (s : string)
| VNumber (f : float)
| VBool (b : bool)
| VNull
| VList (elems : list value)
| VObject (entries : list (string * value)).

(** The decoded line, [map[string]interface{}]. *)
Abbreviation record := (gmap string value).

(** [reflect.Kind], for the kinds a decoded value can have. *)
Inductive Kind : Type := KString | KFloat64 | KBool | KSlice | KMap.

(** [reflect.TypeOf(v)]: the nil [Type] for the nil interface, on which the
    method call [.Kind()] panics. *)
Definition reflect_TypeOf (v : value) : option Kind :=
  match v with
  | VString _ => Some KString
  | VNumber _ => Some KFloat64
  | VBool _ => Some KBool
  | VNull => None
  | VList _ => Some KSlice
  | VObject _ => Some KMap
  end.

Definition Kind_eqb (a b : Kind) : bool :=
  match a, b with
  | KString, KString | KFloat64, KFloat64 | KBool, KBool
  | KSlice, KSlice | KMap, KMap => true
  | _, _ => false
  end.

(** A Go call either returns or panics. *)
Inductive result (A : Type) : Type :=
| Ok (a : A)
| Panic.
Arguments Ok {A} a.
Arguments Panic {A}.

(** ** Constants of [main.go] *)

(** [KeySeperatorChar], the seven bytes of the source literal. *)
Definition KeySeperatorChar : string := "â€¢".

Definition MaxLineLength : Z := 65536.

(** ** Go's [int] and [uint] (64 bits) *)

Definition int_wrap (x : Z) : Z := (x + 2 ^ 63) mod 2 ^ 64 - 2 ^ 63.

(** [x++] on an [int]. *)
Definition int_incr (x : Z) : Z := int_wrap (x + 1).

(** The conversion [uint(x)]. *)
Definition uint_of_int (x : Z) : Z := x mod 2 ^ 64.

(** ** [strings.Join] *)

Fixpoint strings_Join (elems : list string) (sep : string) : string :=
  match elems with
  | [] => ""
  | [s] => s
  | s :: rest => s +:+ sep +:+ strings_Join rest sep
  end.

(** ** [bufio.Scanner] with the [ScanLines] split function *)

Module bufio.

(** [dropCR]: one trailing carriage return is not part of the line. *)
Definition dropCR_rev (rev_line : string) : string :=
  match rev_line with
  | String "013"%char s => String.rev s
  | _ => String.rev rev_line
  end.

(** The [io.Reader] under the scanner: the bytes it delivers, and whether
    it returns [io.EOF] together with the last of them (as net/http does
    for a request body with a Content-Length) or by a later [Read] that
    returns no byte. *)
Record Reader : Type := {
  content : string;
  eof_with_data : bool
}.

(** The tokens [Scan] yields before it returns false.  [cur] is the
    current line read so far, last byte first, and [n] its length.  The
    buffer set by [Buffer(buf, max)] has [max] bytes and may not grow.
    When it holds [max] bytes of one line and no newline among them, [Scan]
    fails with [ErrTooLong] and yields nothing from then on; unless the
    reader has returned [io.EOF] with these bytes, which then are the last
    line: [Scan] calls the split function at the end of the input before
    it looks whether the buffer is full.  At the end of the input a last
    line without newline is a token unless it is empty. *)
Fixpoint scan_from (max : Z) (eof : bool) (input : string) (cur : string)
    (n : Z) : list string :=
  match input with
  | EmptyString =>
      match cur with
      | EmptyString => []
      | _ => [dropCR_rev cur]
      end
  | String c rest =>
      if Ascii.eqb c "010"%char then
        dropCR_rev cur :: scan_from max eof rest "" 0
      else if max <=? n + 1 then
        match rest with
        | EmptyString => if eof then [dropCR_rev (String c cur)] else []
        | _ => []
        end
      else scan_from max eof rest (String c cur) (n + 1)
  end.

Definition Scan (max : Z) (r : Reader) : list string :=
  scan_from max (eof_with_data r) (content r) "" 0.

(** The input is empty or ends in a newline. *)
Fixpoint at_line_end (s : string) : bool :=
  match s with
  | EmptyString => true
  | String c EmptyString => Ascii.eqb c "010"%char
  | String _ s' => at_line_end s'
  end.

(** No newline among the bytes of [s]. *)
Fixpoint no_newline (s : string) : bool :=
  match s with
  | EmptyString => true
  | String c s' => negb (Ascii.eqb c "010"%char) && no_newline s'
  end.

End bufio.

(** ** [urlshaper.Result] and the libhoney event *)

Record Result : Type := {
  URI : string;
  Path : string;
  Query : string;
  QueryFields : gmap string (list string);
  PathFields : gmap string (list string);
  PathShape : string;
  QueryShape : string
}.

Record Event : Type := {
  SampleRate : Z;
  fields : gmap string value
}.

(** [ev.AddField(name, val)]. *)
Definition ev_AddField (ev : Event) (name : string) (val : value) : Event :=
  {| SampleRate := SampleRate ev; fields := <[name := val]> (fields ev) |}.

(** ** The packages the handler calls *)

Class Externals : Type := {
  (** [fmt]'s [%v] of a [float64]. *)
  fmt_float : float → string;
  (** [json.Unmarshal(rawData, &data)]; [None] is a non-nil error. *)
  json_Unmarshal : string → option (gmap string value);
  (** [(&urlshaper.Parser{}).Parse]; [None] is a non-nil error. *)
  shaper_Parse : string → option Result;
  (** The process-wide state: sampler, random source, libhoney. *)
  World : Type;
  (** The order in which [range] produces the entries of a map. *)
  range_order : gmap string value → World → list string;
  (** [sampler.GetSampleRate(key)]. *)
  sampler_GetSampleRate : string → World → Z * World;
  (** The number [rand.Intn(n)] draws when [n] is positive. *)
  rand_draw : Z → World → Z * World;
  libhoney_NewEvent : World → Event;
  (** [ev.Add(data)]; [None] is a non-nil error. *)
  ev_Add : Event → gmap string value → option Event;
  (** [ev.SendPresampled()]; [false] is a non-nil error. *)
  ev_SendPresampled : Event → World → bool * World
}.

(** What the handler prints with [fmt.Printf] (the error text and the
    elapsed milliseconds are left out). *)
Inductive LogLine : Type :=
| JsonParsingError (rawData : string)
| EventAddError (rawData : string)
| EventSendError (rawData : string)
| Sampled (success total : Z).

(** ** The handler *)

Section Program.

Context `{Externals}.

(** The configuration read at startup into the globals of [main.go]. *)
Variable samplingFields : list string.
Variable urlFields : list string.

(** [fmt.Sprintf("%v", v)]. *)
Fixpoint Sprintf (v : value) : string :=
  match v with
  | VString s => s
  | VNumber f => fmt_float f
  | VBool b => if b then "true" else "false"
  | VNull => "<nil>"
  | VList elems => "[" +:+ strings_Join (List.map Sprintf elems) " " +:+ "]"
  | VObject entries =>
      "map[" +:+
      strings_Join
        (List.map (fun kv => let '(k, x) := kv in k +:+ ":" +:+ Sprintf x)
           entries) " " +:+ "]"
  end.

(** [rand.Intn(n)] panics when [n <= 0]. *)
Definition rand_Intn (n : Z) (w : World) : result Z * World :=
  if n <=? 0 then (Panic, w)
  else let '(d, w') := rand_draw n w in (Ok d, w').

(** *** [cleanData] *)

(** The two inner [range] loops over [res.PathFields] and
    [res.QueryFields]: [data[k+infix+pk] = strings.Join(pv, ",")]. *)
Definition add_fields (k infix : string) (vals : gmap string (list string))
    (data : record) : record :=
  map_fold
    (fun pk pv d => <[k +:+ infix +:+ pk := VString (strings_Join pv ",")]> d)
    data vals.

(** The assignments made when [shaper.Parse] returns no error. *)
Definition shape_fields (k : string) (res : Result) (data : record)
  : record :=
  let data := <[k +:+ ".path" := VString (Path res)]> data in
  let data := add_fields k ".pathFields." (PathFields res) data in
  let data := <[k +:+ ".pathShape" := VString (PathShape res)]> data in
  let data := <[k +:+ ".query" := VString (Query res)]> data in
  let data := add_fields k ".queryFields." (QueryFields res) data in
  let data := <[k +:+ ".queryShape" := VString (QueryShape res)]> data in
  <[k +:+ ".uri" := VString (URI res)]> data.

(** [for _, f := range urlFields { if k == f { ... }; break }]: the body
    runs for the first element and then leaves the loop. *)
Definition url_loop (fs : list string) (k : string) (v : value)
    (data : record) : record :=
  match fs with
  | [] => data
  | f :: _ =>
      if decide (k = f) then
        match shaper_Parse (Sprintf v) with
        | Some res => shape_fields k res data
        | None => data
        end
      else data
  end.

(** The body of the outer loop for the entry [k, v]. *)
Definition clean_entry (k : string) (v : value) (data : record)
  : result record :=
  match reflect_TypeOf v with
  | None => Panic
  | Some kd =>
      let data :=
        if Kind_eqb kd KSlice then
          match v with
          | VList elems =>
              <[k := VString (strings_Join (List.map Sprintf elems) ",")]> data
          | _ => data
          end
        else data in
      Ok (url_loop urlFields k v data)
  end.

(** [for k, v := range data] along the keys [order]: an entry is produced
    with the value it has when the loop reaches it. *)
Fixpoint range_loop (order : list string) (data : record) : result record :=
  match order with
  | [] => Ok data
  | k :: order' =>
      match data !! k with
      | None => range_loop order' data
      | Some v =>
          match clean_entry k v data with
          | Ok data' => range_loop order' data'
          | Panic => Panic
          end
      end
  end.

(** [range] produces every entry of the map once, and may or may not
    produce an entry created during the loop. *)
Definition produces (data : record) (order : list string) : Prop :=
  NoDup order ∧ ∀ k, is_Some (data !! k) → k ∈ order.

Definition cleanData (order : list string) (data : record) : result record :=
  range_loop order data.

(** What the loop leaves of a value it reaches: a list becomes the
    comma-joined string forms of its elements. *)
Definition flatten (v : value) : value :=
  match v with
  | VList elems => VString (strings_Join (List.map Sprintf elems) ",")
  | _ => v
  end.

(** Every value of [m] is one the loop leaves as it is and on which it
    does not panic. *)
Definition settled (m : record) : Prop :=
  ∀ key v, m !! key = Some v → flatten v = v ∧ v ≠ VNull.

(** The fields the decomposition writes for the record [data]: those of
    the first configured URL field, when the record has it and the string
    form of its value parses. *)
Definition derived (data : record) : record :=
  match urlFields with
  | [] => ∅
  | f :: _ =>
      match data !! f with
      | Some v => url_loop urlFields f v ∅
      | None => ∅
      end
  end.

(** The record midway through the loop, when the keys in [seen] have been
    reached: the derived fields once the URL field has been reached, over
    the entries of [data], flattened where reached. *)
Definition derived_at (seen : gset string) (data : record) : record :=
  match urlFields with
  | [] => ∅
  | f :: _ => if decide (f ∈ seen) then derived data else ∅
  end.

Definition flattened_at (seen : gset string) (data : record) : record :=
  map_imap (fun k v => Some (if decide (k ∈ seen) then flatten v else v)) data.

(** *** [determineSampleRate] *)

(** [for i, field := range samplingFields], from index [i] on. *)
Fixpoint fill_keys (i : nat) (flds : list string) (data : record)
    (keys : list string) : list string :=
  match flds with
  | [] => keys
  | field :: flds' =>
      let keys :=
        match data !! field with
        | Some val => <[i := Sprintf val]> keys
        | None => keys
        end in
      fill_keys (S i) flds' data keys
  end.

(** The key alone: lines 196 to 202. *)
Definition sample_key (data : record) : string :=
  let keys := replicate (length samplingFields) "" in
  let keys := fill_keys 0 samplingFields data keys in
  strings_Join keys KeySeperatorChar.

(** [if rate < 1 { rate = 1 }]. *)
Definition clamp (rate : Z) : Z := if rate <? 1 then 1 else rate.

Definition determineSampleRate (data : record) (w : World)
  : result (Z * bool * string) * World :=
  let key := sample_key data in
  let '(rate, w) := sampler_GetSampleRate key w in
  let rate := clamp rate in
  match rand_Intn rate w with
  | (Ok n, w) => (Ok (rate, n =? 0, key), w)
  | (Panic, w) => (Panic, w)
  end.

(** The key returned by a call, if it returns. *)
Definition key_of (r : result (Z * bool * string) * World) : option string :=
  match r with
  | (Ok (_, _, key), _) => Some key
  | (Panic, _) => None
  end.

(** The key as the specification words it: one position per configured
    field, the string form of the field when present and the empty string
    when absent, joined with the separator. *)
Definition key_position (data : record) (field : string) : string :=
  match data !! field with
  | Some val => Sprintf val
  | None => ""
  end.

Definition spec_key (data : record) : string :=
  strings_Join (List.map (key_position data) samplingFields) KeySeperatorChar.

(** *** [readNewData] *)

(** The locals of the handler and the process state. *)
Record Handler : Type := {
  total : Z;
  success : Z;
  printed : list LogLine;
  world : World
}.

Definition print (msg : LogLine) (st : Handler) : Handler :=
  {| total := total st; success := success st;
     printed := printed st ++ [msg]; world := world st |}.

Definition set_world (w : World) (st : Handler) : Handler :=
  {| total := total st; success := success st;
     printed := printed st; world := w |}.

(** One pass through the body of [for scanner.Scan()] goes on to the next
    line or panics; either way with the locals as the pass leaves them. *)
Inductive Pass : Type :=
| Continue (st : Handler)
| Abort (st : Handler).

Definition scan_body (rawData : string) (st : Handler) : Pass :=
  let st := {| total := int_incr (total st); success := success st;
               printed := printed st; world := world st |} in
  match json_Unmarshal rawData with
  | None => Continue (print (JsonParsingError rawData) st)
  | Some data =>
      match cleanData (range_order data (world st)) data with
      | Panic => Abort st
      | Ok data =>
          match determineSampleRate data (world st) with
          | (Panic, w) => Abort (set_world w st)
          | (Ok (rate, keep, key), w) =>
              let st := set_world w st in
              if keep then
                let ev := libhoney_NewEvent w in
                let ev := {| SampleRate := uint_of_int rate;
                             fields := fields ev |} in
                let ev := ev_AddField ev "event.samplekey" (VString key) in
                match ev_Add ev data with
                | None => Continue (print (EventAddError rawData) st)
                | Some ev =>
                    let '(sent, w) := ev_SendPresampled ev w in
                    let st := set_world w st in
                    if sent then
                      Continue {| total := total st;
                                  success := int_incr (success st);
                                  printed := printed st; world := world st |}
                    else Continue (print (EventSendError rawData) st)
                end
              else Continue st
          end
      end
  end.

(** The locals at the end of a pass. *)
Definition locals_after (p : Pass) : Handler :=
  match p with
  | Continue st => st
  | Abort st => st
  end.

(** How the loop over the scanned lines ends: the scanner is exhausted, or
    the pass for [line] panics. *)
Inductive Loop : Type :=
| Exhausted (st : Handler)
| Panicked (line : string) (st : Handler).

Fixpoint scan_loop (lines : list string) (st : Handler) : Loop :=
  match lines with
  | [] => Exhausted st
  | rawData :: lines' =>
      match scan_body rawData st with
      | Continue st' => scan_loop lines' st'
      | Abort st' => Panicked rawData st'
      end
  end.

(** The line decodes as a JSON object. *)
Definition is_decodable (rawData : string) : bool :=
  match json_Unmarshal rawData with
  | Some _ => true
  | None => false
  end.

(** A decoded line with a null field. *)
Definition has_null_field (rawData : string) : Prop :=
  ∃ data k, json_Unmarshal rawData = Some data ∧ data !! k = Some VNull.

(** What the caller gets: the status written with [w.WriteHeader], or
    nothing from the handler when it panics (net/http recovers the panic
    and drops the connection). *)
Record Response : Type := {
  status : Z;
  reported_success : Z;
  reported_total : Z;
  output : list LogLine;
  after : World
}.

Definition readNewData (body : bufio.Reader) (w : World) : result Response :=
  let st := {| total := 0; success := 0; printed := []; world := w |} in
  match scan_loop (bufio.Scan MaxLineLength body) st with
  | Exhausted st =>
      let st := print (Sampled (success st) (total st)) st in
      Ok {| status := 200;
            reported_success := success st; reported_total := total st;
            output := printed st; after := world st |}
  | Panicked _ _ => Panic
  end.

End Program.

Arguments total {_} _.
Arguments success {_} _.
Arguments printed {_} _.
Arguments world {_} _.
Arguments locals_after {_} _.

(** ** A small instance of the packages

    Enough of each package to run the handler on the lines below:
    [demo_Unmarshal] and [demo_Parse] agree with [encoding/json] and
    [urlshaper] on the inputs listed and report an error elsewhere; no
    number occurs in the records, so [fmt_float] is never called. *)

Definition dq : string := String (ascii_of_nat 34) EmptyString.

(** [{}] *)
Definition line_empty : string := "{}".
(** [{"a":null}] *)
Definition line_null : string := "{" +:+ dq +:+ "a" +:+ dq +:+ ":null}".
(** [{"user":"a","path":"/x?y=2"}] *)
Definition line_user : string :=
  "{" +:+ dq +:+ "user" +:+ dq +:+ ":" +:+ dq +:+ "a" +:+ dq +:+ "," +:+
  dq +:+ "path" +:+ dq +:+ ":" +:+ dq +:+ "/x?y=2" +:+ dq +:+ "}".

Definition user_record : gmap string value :=
  <["user" := VString "a"]> {[ "path" := VString "/x?y=2" ]}.

Definition demo_Unmarshal (rawData : string) : option (gmap string value) :=
  if decide (rawData = line_empty) then Some ∅
  else if decide (rawData = line_null) then Some {[ "a" := VNull ]}
  else if decide (rawData = line_user) then Some user_record
  else None.

(** What [urlshaper] makes of [/x?y=2]. *)
Definition demo_result : Result :=
  {| URI := "/x?y=2"; Path := "/x"; Query := "y=2";
     QueryFields := {[ "y" := ["2"] ]}; PathFields := ∅;
     PathShape := "/x"; QueryShape := "y=?" |}.

Definition demo_Parse (rawURL : string) : option Result :=
  if decide (rawURL = "/x?y=2") then Some demo_result else None.

(** The entries of a map in the order [map_to_list] lists them. *)
Definition keys_of (data : gmap string value) : list string :=
  (map_to_list data).*1.

Definition demo : Externals := {|
  fmt_float := fun _ => "NaN";
  json_Unmarshal := demo_Unmarshal;
  shaper_Parse := demo_Parse;
  World := Z;
  range_order := fun data _ => keys_of data;
  sampler_GetSampleRate := fun _ w => (w mod 4 - 1, w);
  rand_draw := fun n w => (w mod n, w + 1);
  libhoney_NewEvent := fun _ =>
    {| SampleRate := 1;
       fields := {[ "event.parser" := VString "http-honeylog/0.1" ]} |};
  ev_Add := fun ev data =>
    Some {| SampleRate := SampleRate ev; fields := data ∪ fields ev |};
  ev_SendPresampled := fun _ w => (negb (w mod 7 =? 0), w)
|}.

(** The records of the examples. *)
Definition user_record_cleaned : gmap string value :=
  list_to_map
    [("user", VString "a"); ("path", VString "/x?y=2");
     ("path.path", VString "/x"); ("path.pathShape", VString "/x");
     ("path.query", VString "y=2"); ("path.queryFields.y", VString "2");
     ("path.queryShape", VString "y=?"); ("path.uri", VString "/x?y=2")].

Definition abc : list value := [VString "a"; VString "b"; VString "c"].

Definition tags_record : gmap string value := {[ "tags" := VList abc ]}.

(** A record that already has a field named like a derived one. *)
Definition taken_record : gmap string value :=
  <["path.path" := VString "mine"]> user_record.

Definition list_at_derived_record : gmap string value :=
  <["path.path" := VList abc]> user_record.

Definition nl : string := String "010"%char EmptyString.

(** Ten lines, three of them malformed. *)
Definition ten_lines : string :=
  line_user +:+ nl +:+ "oops" +:+ nl +:+ line_empty +:+ nl +:+ "{" +:+ nl +:+
  line_user +:+ nl +:+ line_empty +:+ nl +:+ "}" +:+ nl +:+ line_empty +:+ nl +:+
  line_user +:+ nl +:+ line_empty +:+ nl.

(** A line of [MaxLineLength] bytes and no newline. *)
Definition long_line : string :=
  string_of_list_ascii (repeat "a"%char (Z.to_nat MaxLineLength)).

(** A line of one byte more than [MaxLineLength]. *)
Definition over_long_line : string := String "a"%char long_line.

(** The body [s] as net/http hands it to the handler when the request has
    a Content-Length: the end is reported with the last bytes. *)
Definition http_body (s : string) : bufio.Reader :=
  {| bufio.content := s; bufio.eof_with_data := true |}.

(** The body [s] from a reader that reports the end by a [Read] of its
    own. *)
Definition plain_body (s : string) : bufio.Reader :=
  {| bufio.content := s; bufio.eof_with_data := false |}.

(** ** Startup: [main]

    [main] up to the point where it starts the server: it initialises
    libhoney, reads the configuration from the environment into the globals
    and starts the sampler, or exits with a code. *)

(** [strings.Split(s, sep)] for a separator of one byte, as [main] calls
    it: the pieces of [s] between the separators, one more than there are
    separators. *)
Fixpoint strings_Split (s : string) (sep : ascii) : list string :=
  match s with
  | EmptyString => [""]
  | String c s' =>
      if Ascii.eqb c sep then "" :: strings_Split s' sep
      else
        match strings_Split s' sep with
        | piece :: pieces => String c piece :: pieces
        | [] => [String c ""]
        end
  end.

Definition DefaultServerPort : string := "8080".

(** The globals set by [main] and the address of the server. *)
Record Config : Type := {
  conf_samplingFields : list string;
  conf_urlFields : list string;
  GoalSampleRate : Z;
  Addr : string
}.

Inductive Startup : Type :=
| Exit (code : Z)
| Serve (conf : Config).

Section Main.

(** [os.Getenv]: the empty string for a variable that is not set. *)
Variable Getenv : string → string.
(** [libhoney.Init] with the API key and the dataset; [false] is a non-nil
    error. *)
Variable libhoney_Init : string → string → bool.
(** [strconv.Atoi]; [None] is a non-nil error. *)
Variable strconv_Atoi : string → option Z.
(** [sampler.Start()] for the goal rate; [false] is a non-nil error. *)
Variable sampler_Start : Z → bool.

Definition main : Startup :=
  if negb (libhoney_Init (Getenv "HONEYCOMB_API_KEY")
             (Getenv "HONEYCOMB_DATASET"))
  then Exit 100
  else
    let skeys := Getenv "HONEYCOMB_SAMPLING_FIELDS" in
    if (String.length skeys =? 0)%nat then Exit 101
    else
      let samplingFields := strings_Split skeys ","%char in
      let urlFields :=
        strings_Split (Getenv "HONEYCOMB_URL_FIELDS") ","%char in
      let rate :=
        match strconv_Atoi (Getenv "HONEYCOMB_SAMPLE_RATE") with
        | Some rate => rate
        | None => 1
        end in
      if negb (sampler_Start rate) then Exit 102
      else
        let serverPort := Getenv "SERVER_PORT" in
        let serverPort :=
          if decide (serverPort = "") then DefaultServerPort
          else serverPort in
        Serve {| conf_samplingFields := samplingFields;
                 conf_urlFields := urlFields;
                 GoalSampleRate := rate;
                 Addr := ":" +:+ serverPort |}.

End Main.

(** ** Vocabulary of the further properties *)

(** The byte [c] occurs in [s]. *)
Fixpoint has_byte (c : ascii) (s : string) : bool :=
  match s with
  | EmptyString => false
  | String c' s' => Ascii.eqb c' c || has_byte c s'
  end.

(** The last byte of [s] is a carriage return. *)
Fixpoint ends_in_CR (s : string) : bool :=
  match s with
  | EmptyString => false
  | String c EmptyString => Ascii.eqb c "013"%char
  | String _ s' => ends_in_CR s'
  end.

(** A line and whether it is ended by CR LF rather than LF. *)
Definition eol (crlf : bool) : string :=
  if crlf then String "013"%char nl else nl.

Fixpoint lines_body (lines : list (string * bool)) : string :=
  match lines with
  | [] => ""
  | (line, crlf) :: rest => line +:+ eol crlf +:+ lines_body rest
  end.

(** The line goes through the scanner as it is: no newline in it, no
    carriage return at its end unless one is part of the line ending, and
    fewer than [max] bytes before the newline. *)
Definition fits (max : Z) (line : string * bool) : bool :=
  let '(l, crlf) := line in
  bufio.no_newline l
  && (crlf || negb (ends_in_CR l))
  && (Z.of_nat (String.length l) + (if crlf then 1 else 0) <? max).

Definition is_parse_error (msg : LogLine) : bool :=
  match msg with
  | JsonParsingError _ => true
  | _ => false
  end.

Definition is_sink_error (msg : LogLine) : bool :=
  match msg with
  | EventAddError _ | EventSendError _ => true
  | _ => false
  end.

(** The first byte of [KeySeperatorChar], 0xC3. *)
Definition separator_lead : ascii := "195"%char.

(** The packages of [demo] with a sampler that answers 1 for every key and
    a sink that takes every event. *)
Definition keep_all : Externals := {|
  fmt_float := fun _ => "NaN";
  json_Unmarshal := demo_Unmarshal;
  shaper_Parse := demo_Parse;
  World := Z;
  range_order := fun data _ => keys_of data;
  sampler_GetSampleRate := fun _ w => (1, w);
  rand_draw := fun n w => (w mod n, w + 1);
  libhoney_NewEvent := fun _ =>
    {| SampleRate := 1;
       fields := {[ "event.parser" := VString "http-honeylog/0.1" ]} |};
  ev_Add := fun ev data =>
    Some {| SampleRate := SampleRate ev; fields := data ∪ fields ev |};
  ev_SendPresampled := fun _ w => (true, w)
|}.

(** An environment for the examples. *)
Definition demo_Getenv (name : string) : string :=
  if decide (name = "HONEYCOMB_SAMPLING_FIELDS") then "user,path"
  else if decide (name = "SERVER_PORT") then "9090"
  else "".

(** What [main] makes of [demo_Getenv] when libhoney and the sampler start
    and the sample rate is not set. *)
Definition demo_main : Startup :=
  main demo_Getenv (fun _ _ => true) (fun _ => None) (fun _ => true).

Definition demo_conf : Config :=
  {| conf_samplingFields := ["user"; "path"]; conf_urlFields := [""];
     GoalSampleRate := 1; Addr := ":9090" |}.

(** Three lines: a record, a malformed line, the empty record. *)
Definition three_lines : string :=
  line_user +:+ nl +:+ "oops" +:+ nl +:+ line_empty.

(** Two lines, none of which decodes. *)
Definition bad_lines : string := "oops" +:+ nl +:+ "{" +:+ nl.

(** Two records whose values meet the separator at the boundary between
    the two positions. *)
Definition sep_at_end_record : gmap string value :=
  <["user" := VString ("x" +:+ KeySeperatorChar)]>
    {[ "path" := VString "y" ]}.

Definition sep_at_start_record : gmap string value :=
  <["user" := VString "x"]>
    {[ "path" := VString (KeySeperatorChar +:+ "y") ]}.

(** A record with a null field beside the fields of [user_record]. *)
Definition null_record : gmap string value := <["a" := VNull]> user_record.

Definition list_url_record : gmap string value := {[ "path" := VList abc ]}.

(** ** The scanner *)

Section Scanner.

Variable max : Z.

Lemma scan_from_too_long (eof : bool) (long rest cur : string) (n : Z) :
  bufio.no_newline long = true →
  n < max →
  max ≤ n + Z.of_nat (String.length long) →
  max < n + Z.of_nat (String.length long) + Z.of_nat (String.length rest) →
  bufio.scan_from max eof (long +:+ rest) cur n = [].
Proof.
  revert cur n.
  induction long as [|c long IH]; intros cur n Hnl Hn Hlen Hmore.
  - simpl in Hlen. lia.
  - simpl in Hnl. apply andb_prop in Hnl as [Hc Hnl].
    apply negb_true_iff in Hc. cbn [String.length] in Hlen, Hmore.
    change (String c long +:+ rest) with (String c (long +:+ rest)).
    cbn [bufio.scan_from]. rewrite Hc.
    destruct (Z.leb_spec max (n + 1)) as [|Hlt].
    + destruct long as [|c' long]; [|done].
      destruct rest as [|c' rest]; [|done].
      simpl in Hmore. lia.
    + apply IH; [done | lia | lia | lia].
Qed.

Lemma scan_from_cut (eof eof' : bool) (pre tail cur : string) (n : Z) :
  bufio.scan_from max eof tail "" 0 = [] →
  bufio.at_line_end pre = true →
  (pre = "" → cur = "" ∧ n = 0) →
  bufio.scan_from max eof (pre +:+ tail) cur n
  = bufio.scan_from max eof' pre cur n.
Proof.
  intros Htail. revert cur n.
  induction pre as [|c pre IH]; intros cur n Hend Hcur.
  - destruct (Hcur eq_refl) as [-> ->]. exact Htail.
  - change (String c pre +:+ tail) with (String c (pre +:+ tail)).
    cbn [bufio.scan_from].
    destruct (Ascii.eqb c "010") eqn:Hc.
    + f_equal. apply IH.
      * destruct pre; [done|]. exact Hend.
      * done.
    + destruct pre as [|c' pre]; [simpl in Hend; congruence|].
      change (String c' pre +:+ tail) with (String c' (pre +:+ tail)).
      destruct (Z.leb_spec max (n + 1)); [done|].
      apply IH; [exact Hend | discriminate].
Qed.

End Scanner.

Lemma Scan_stops_at_long_line (eof eof' : bool) (pre long rest : string) :
  bufio.at_line_end pre = true →
  bufio.no_newline long = true →
  MaxLineLength ≤ Z.of_nat (String.length long) →
  MaxLineLength
  < Z.of_nat (String.length long) + Z.of_nat (String.length rest) →
  bufio.Scan MaxLineLength
    {| bufio.content := pre +:+ long +:+ rest; bufio.eof_with_data := eof |}
  = bufio.Scan MaxLineLength
      {| bufio.content := pre; bufio.eof_with_data := eof' |}.
Proof.
  intros Hpre Hlong Hlen Hmore. unfold bufio.Scan.
  cbn [bufio.content bufio.eof_with_data].
  apply scan_from_cut; [|done|done].
  apply scan_from_too_long; [done | unfold MaxLineLength; lia | lia | lia].
Qed.

(** ** The sampling key and the keep decision *)

Section Sampling.

Context `{Externals}.
Variable samplingFields : list string.

Lemma fill_keys_positions (data : record) (flds : list string) :
  ∀ pre : list string,
    fill_keys (length pre) flds data (pre ++ replicate (length flds) "")
    = pre ++ List.map (key_position data) flds.
Proof.
  induction flds as [|field flds IH]; intros pre; [done|].
  cbn [fill_keys length replicate List.map].
  assert (Hkeys :
    match data !! field with
    | Some val => <[length pre := Sprintf val]> (pre ++ "" :: replicate (length flds) "")
    | None => pre ++ "" :: replicate (length flds) ""
    end = (pre ++ [key_position data field]) ++ replicate (length flds) "").
  { unfold key_position. rewrite <- app_assoc.
    destruct (data !! field) as [val|]; [|done].
    rewrite insert_app_r_alt by lia. by rewrite Nat.sub_diag. }
  rewrite Hkeys.
  replace (S (length pre)) with (length (pre ++ [key_position data field]))
    by (rewrite length_app; simpl; lia).
  rewrite IH. by rewrite <- app_assoc.
Qed.

Lemma sample_key_spec (data : record) :
  sample_key samplingFields data = spec_key samplingFields data.
Proof.
  unfold sample_key, spec_key. f_equal.
  exact (fill_keys_positions data samplingFields []).
Qed.

Lemma spec_key_ext (data data' : record) :
  (∀ f, f ∈ samplingFields → data !! f = data' !! f) →
  spec_key samplingFields data = spec_key samplingFields data'.
Proof.
  intros Hsame. unfold spec_key. f_equal.
  apply map_ext_in. intros f Hf. unfold key_position.
  by rewrite Hsame by (by apply list_elem_of_In).
Qed.

Lemma clamp_ge_1 (rate : Z) : 1 ≤ clamp rate.
Proof. unfold clamp. destruct (Z.ltb_spec rate 1); lia. Qed.

Lemma rand_Intn_pos (n : Z) (w : World) :
  1 ≤ n → rand_Intn n w = (Ok (rand_draw n w).1, (rand_draw n w).2).
Proof.
  intros Hn. unfold rand_Intn.
  destruct (Z.leb_spec n 0); [lia|]. by destruct (rand_draw n w).
Qed.

Lemma determineSampleRate_eq (data : record) (w : World) :
  determineSampleRate samplingFields data w
  = let key := sample_key samplingFields data in
    let rate := clamp (sampler_GetSampleRate key w).1 in
    let drawn := rand_draw rate (sampler_GetSampleRate key w).2 in
    (Ok (rate, drawn.1 =? 0, key), drawn.2).
Proof.
  unfold determineSampleRate. cbn zeta.
  destruct (sampler_GetSampleRate _ w) as [rate wa]. cbn [fst snd].
  by rewrite rand_Intn_pos by apply clamp_ge_1.
Qed.

(** C8: the key a call returns is the join, with [KeySeperatorChar], of
    one position per configured field in order, each the string form of the
    field when present and empty when absent; whatever the process state,
    two records with the same entries at the configured fields get the same
    key. *)
Theorem sampling_key_is_join (data data' : record) (w w' : World) :
  (∀ f, f ∈ samplingFields → data !! f = data' !! f) →
  key_of (determineSampleRate samplingFields data w)
  = Some (strings_Join (List.map (key_position data) samplingFields)
            KeySeperatorChar)
  ∧ key_of (determineSampleRate samplingFields data' w')
    = key_of (determineSampleRate samplingFields data w).
Proof.
  intros Hsame. rewrite !determineSampleRate_eq. cbn [key_of].
  rewrite !sample_key_spec. split; [done|].
  by rewrite (spec_key_ext data data').
Qed.

(** C9: a rate below 1 is clamped to 1 before the draw, so [rand.Intn] is
    called with an argument of at least 1 and does not panic; the record is
    kept exactly when the draw is 0; and a clamped rate of 1 keeps it. *)
Theorem decision_clamps_then_draws (data : record) (w : World) :
  (∀ n wa, 0 < n → 0 ≤ (rand_draw n wa).1 < n) →
  let key := sample_key samplingFields data in
  let sampled := sampler_GetSampleRate key w in
  let rate := if sampled.1 <? 1 then 1 else sampled.1 in
  let drawn := rand_draw rate sampled.2 in
  1 ≤ rate
  ∧ rand_Intn rate sampled.2 = (Ok drawn.1, drawn.2)
  ∧ 0 ≤ drawn.1 < rate
  ∧ determineSampleRate samplingFields data w
    = (Ok (rate, drawn.1 =? 0, key), drawn.2)
  ∧ (rate = 1 → (drawn.1 =? 0) = true).
Proof.
  intros Hdraw key sampled rate drawn.
  assert (Hrate : 1 ≤ rate) by apply clamp_ge_1.
  assert (Hrange : 0 ≤ drawn.1 < rate) by (apply Hdraw; lia).
  split; [done|]. split; [by apply rand_Intn_pos|]. split; [done|].
  split; [by rewrite determineSampleRate_eq|].
  intros Hone. apply Z.eqb_eq. lia.
Qed.

(** C10: a record without the field [f] and the record holding the empty
    string at [f] get the same key. *)
Theorem absent_and_empty_same_key (f : string) (data : record) (w w' : World) :
  key_of (determineSampleRate samplingFields (delete f data) w)
  = key_of (determineSampleRate samplingFields (<[f := VString ""]> data) w').
Proof.
  rewrite !determineSampleRate_eq. cbn [key_of].
  rewrite !sample_key_spec. unfold spec_key. do 2 f_equal.
  apply map_ext. intros g. unfold key_position.
  destruct (decide (g = f)) as [->|Hne].
  - by rewrite lookup_delete_eq, lookup_insert_eq.
  - by rewrite lookup_delete_ne, lookup_insert_ne.
Qed.

End Sampling.

(** ** The field normalizer *)

#[local] Arguments String.append !_ _ / : simpl nomatch.

Lemma string_app_self (k s : string) : k = k +:+ s → s = "".
Proof.
  induction k as [|c k IH]; intros Heq; simpl in Heq; [done|].
  apply IH. congruence.
Qed.

(** Two keys built on the same field name differ when their suffixes do. *)
Ltac key_neq :=
  let E := fresh "E" in
  intros E;
  first
    [ apply (inj (String.app _)) in E; simpl in E; congruence
    | apply string_app_self in E; simpl in E; congruence
    | symmetry in E; apply string_app_self in E; simpl in E; congruence ].

Section AddFields.

Context `{Externals}.
Variables k infix : string.

Lemma add_fields_union (vals : gmap string (list string)) (a b : record) :
  add_fields k infix vals (a ∪ b) = add_fields k infix vals a ∪ b.
Proof.
  unfold add_fields. rewrite !map_fold_foldr.
  induction (map_to_list vals) as [|[pk pv] l IH]; simpl; [done|].
  by rewrite IH, insert_union_l.
Qed.

Lemma add_fields_other (vals : gmap string (list string)) (data : record)
    (key : string) :
  (∀ pk, key ≠ k +:+ infix +:+ pk) →
  add_fields k infix vals data !! key = data !! key.
Proof.
  intros Hkey. unfold add_fields.
  apply (map_fold_weak_ind (fun r _ => r !! key = data !! key)); [done|].
  intros pk pv m r _ IH. rewrite lookup_insert_ne; [done|].
  intros Heq. by apply (Hkey pk).
Qed.

Lemma add_fields_lookup (vals : gmap string (list string)) (data : record)
    (pk : string) (pv : list string) :
  vals !! pk = Some pv →
  add_fields k infix vals data !! (k +:+ infix +:+ pk)
  = Some (VString (strings_Join pv ",")).
Proof.
  unfold add_fields. revert pk pv.
  apply (map_fold_weak_ind (fun r m => ∀ pk pv, m !! pk = Some pv →
    r !! (k +:+ infix +:+ pk) = Some (VString (strings_Join pv ",")))).
  - intros pk pv. by rewrite lookup_empty.
  - intros i x m r Hi IH pk pv. destruct (decide (i = pk)) as [->|Hne].
    + rewrite !lookup_insert_eq. congruence.
    + rewrite !lookup_insert_ne; [by apply IH| |done].
      intros Heq. apply Hne.
      by apply (inj (String.app infix)), (inj (String.app k)).
Qed.

Lemma add_fields_strings (vals : gmap string (list string)) (data : record) :
  settled data → settled (add_fields k infix vals data).
Proof.
  intros Hdata. unfold add_fields.
  apply (map_fold_weak_ind (fun r _ => settled r)); [done|].
  intros pk pv m r _ IH key v. rewrite lookup_insert. case_decide.
  - by intros [= <-].
  - apply IH.
Qed.

End AddFields.

Section Normalizer.

Context `{Externals}.

Lemma settled_empty : settled ∅.
Proof. intros key v. by rewrite lookup_empty. Qed.

Lemma settled_insert (m : record) (key s : string) :
  settled m → settled (<[key := VString s]> m).
Proof.
  intros Hm key' v. rewrite lookup_insert. case_decide.
  - by intros [= <-].
  - apply Hm.
Qed.

Lemma shape_fields_union (k : string) (res : Result) (a b : record) :
  shape_fields k res (a ∪ b) = shape_fields k res a ∪ b.
Proof.
  unfold shape_fields.
  by rewrite !insert_union_l, !add_fields_union, !insert_union_l,
    !add_fields_union, !insert_union_l.
Qed.

Lemma shape_fields_settled (k : string) (res : Result) :
  settled (shape_fields k res ∅).
Proof.
  unfold shape_fields.
  repeat first [ apply settled_insert | apply add_fields_strings
               | apply settled_empty ].
Qed.

Lemma shape_fields_not_self (k : string) (res : Result) :
  shape_fields k res ∅ !! k = None.
Proof.
  unfold shape_fields.
  repeat first [ rewrite lookup_insert_ne by key_neq
               | rewrite add_fields_other by (intros; key_neq) ].
  apply lookup_empty.
Qed.

Lemma url_loop_union {urlFields : list string} (k : string) (v : value) (a b : record) :
  url_loop urlFields k v (a ∪ b) = url_loop urlFields k v a ∪ b.
Proof.
  unfold url_loop. destruct urlFields as [|f ?]; [done|].
  case_decide; [|done].
  destruct (shaper_Parse _); [|done]. apply shape_fields_union.
Qed.

Lemma url_loop_settled {urlFields : list string} (k : string) (v : value) :
  settled (url_loop urlFields k v ∅).
Proof.
  unfold url_loop. destruct urlFields as [|f ?]; [apply settled_empty|].
  case_decide; [|apply settled_empty].
  destruct (shaper_Parse _);
    [apply shape_fields_settled | apply settled_empty].
Qed.

Lemma url_loop_not_self {urlFields : list string} (k : string) (v : value) :
  url_loop urlFields k v ∅ !! k = None.
Proof.
  unfold url_loop. destruct urlFields as [|f ?]; [done|].
  case_decide; [|done].
  destruct (shaper_Parse _); [apply shape_fields_not_self | done].
Qed.

Lemma url_loop_other (f k : string) (rest : list string) (v : value)
    (a : record) :
  k ≠ f → url_loop (f :: rest) k v a = a.
Proof. intros Hne. unfold url_loop. by case_decide. Qed.

Lemma derived_settled {urlFields : list string} (data : record) : settled (derived urlFields data).
Proof.
  unfold derived. destruct urlFields as [|f rest];
    [apply settled_empty|].
  destruct (data !! f); [|apply settled_empty].
  apply url_loop_settled.
Qed.

Lemma clean_entry_null {urlFields : list string} (k : string) (cur : record) :
  clean_entry urlFields k VNull cur = Panic.
Proof. done. Qed.

Lemma clean_entry_ok {urlFields : list string} (k : string) (v : value) (cur : record) :
  v ≠ VNull →
  cur !! k = Some v →
  clean_entry urlFields k v cur
  = Ok (url_loop urlFields k v ∅ ∪ <[k := flatten v]> cur).
Proof.
  intros Hv Hk. rewrite <- url_loop_union, (left_id_L ∅ (∪)).
  destruct v; try done; unfold clean_entry; simpl;
    by rewrite insert_id.
Qed.

Lemma seen_add_self (seen : gset string) (k : string) : k ∈ seen ∪ {[k]}.
Proof. apply elem_of_union. right. by apply elem_of_singleton. Qed.

Lemma seen_add_old (seen : gset string) (k key : string) :
  key ∈ seen → key ∈ seen ∪ {[k]}.
Proof. intros Hkey. apply elem_of_union. by left. Qed.

Lemma seen_add_other (seen : gset string) (k key : string) :
  key ≠ k → key ∉ seen → key ∉ seen ∪ {[k]}.
Proof.
  intros Hne Hkey [Hin|Hin]%elem_of_union; [done|].
  by apply elem_of_singleton in Hin.
Qed.

Lemma lookup_flattened_at (seen : gset string) (data : record) (key : string) :
  flattened_at seen data !! key
  = (fun v => if decide (key ∈ seen) then flatten v else v) <$> data !! key.
Proof.
  unfold flattened_at. rewrite map_lookup_imap. by destruct (data !! key).
Qed.

Lemma flattened_at_visit (seen : gset string) (data : record) (k : string)
    (v : value) :
  data !! k = Some v →
  <[k := flatten v]> (flattened_at seen data)
  = flattened_at (seen ∪ {[k]}) data.
Proof.
  intros Hk. apply map_eq. intros key.
  rewrite lookup_insert, !lookup_flattened_at. case_decide as Hkey.
  - subst key. rewrite Hk. simpl.
    by rewrite decide_True by apply seen_add_self.
  - destruct (data !! key) as [x|]; [simpl|done].
    destruct (decide (key ∈ seen)).
    + by rewrite decide_True by by apply seen_add_old.
    + by rewrite decide_False by by apply seen_add_other.
Qed.

Lemma flattened_at_other (seen : gset string) (data : record)
    (k key : string) :
  key ≠ k →
  flattened_at (seen ∪ {[k]}) data !! key = flattened_at seen data !! key.
Proof.
  intros Hne. rewrite !lookup_flattened_at.
  destruct (data !! key) as [x|]; [simpl|done].
  destruct (decide (key ∈ seen)).
  - by rewrite decide_True by by apply seen_add_old.
  - by rewrite decide_False by by apply seen_add_other.
Qed.

Lemma flattened_at_absent (seen : gset string) (data : record) (k : string) :
  data !! k = None →
  flattened_at (seen ∪ {[k]}) data = flattened_at seen data.
Proof.
  intros Hk. apply map_eq. intros key.
  destruct (decide (key = k)) as [->|Hne].
  - by rewrite !lookup_flattened_at, Hk.
  - by apply flattened_at_other.
Qed.

Lemma flattened_at_all (seen : gset string) (data : record) :
  (∀ k, is_Some (data !! k) → k ∈ seen) →
  flattened_at seen data = flatten <$> data.
Proof.
  intros Hall. apply map_eq. intros key.
  rewrite lookup_flattened_at, lookup_fmap.
  destruct (data !! key) as [x|] eqn:Hx; [simpl|done].
  by rewrite decide_True by (apply Hall; eauto).
Qed.

Lemma derived_at_settled {urlFields : list string} (seen : gset string) (data : record) :
  settled (derived_at urlFields seen data).
Proof.
  unfold derived_at. destruct urlFields as [|f rest];
    [apply settled_empty|].
  case_decide; [|apply settled_empty].
  apply derived_settled.
Qed.

Lemma derived_at_all {urlFields : list string} (seen : gset string) (data : record) :
  (∀ k, is_Some (data !! k) → k ∈ seen) →
  derived_at urlFields seen data = derived urlFields data.
Proof.
  intros Hall. unfold derived_at, derived.
  destruct urlFields as [|f rest]; [done|]. case_decide as Hf; [done|].
  destruct (data !! f) eqn:Hdata; [|done].
  exfalso. apply Hf, Hall. eauto.
Qed.

(** The record after the loop has reached one more key [k], present. *)
Lemma visit_entry {urlFields : list string} (seen : gset string) (data cur cur' : record) (k : string)
    (v : value) :
  k ∉ seen →
  cur = derived_at urlFields seen data ∪ flattened_at seen data →
  cur !! k = Some v →
  clean_entry urlFields k v cur = Ok cur' →
  cur' = derived_at urlFields (seen ∪ {[k]}) data
         ∪ flattened_at (seen ∪ {[k]}) data.
Proof.
  intros Hk Hcur Hv Hclean.
  assert (Hnull : v ≠ VNull) by (intros ->; discriminate Hclean).
  rewrite clean_entry_ok in Hclean by done. injection Hclean as <-.
  destruct (derived_at urlFields seen data !! k) as [d|] eqn:Hd.
  - (* [k] is a derived field written earlier *)
    assert (v = d) as ->.
    { rewrite Hcur, (lookup_union_l' _ _ _ (mk_is_Some _ _ Hd)) in Hv.
      congruence. }
    destruct (derived_at_settled seen data k d Hd) as [-> _].
    rewrite insert_id by done.
    subst cur. unfold derived_at in Hd |- *.
    destruct urlFields as [|f rest]; [by rewrite lookup_empty in Hd|].
    destruct (decide (f ∈ seen)) as [Hf|]; [|by rewrite lookup_empty in Hd].
    rewrite decide_True by by apply seen_add_old.
    rewrite (url_loop_other f k rest) by (intros ->; done).
    rewrite (left_id_L ∅ (∪)).
    apply map_eq. intros key. rewrite !lookup_union.
    destruct (decide (key = k)) as [->|Hne].
    + rewrite Hd. by rewrite !union_Some_l.
    + by rewrite flattened_at_other.
  - (* [k] still holds the value of [data] *)
    assert (Hdata : data !! k = Some v).
    { rewrite Hcur, lookup_union_r, lookup_flattened_at in Hv by done.
      destruct (data !! k) as [x|]; simpl in Hv; [|done].
      rewrite decide_False in Hv by done. congruence. }
    rewrite Hcur, insert_union_r by exact Hd.
    rewrite (flattened_at_visit _ _ _ _ Hdata).
    unfold derived_at. destruct urlFields as [|f rest];
      [simpl; by rewrite !(left_id_L ∅ (∪))|].
    destruct (decide (k = f)) as [->|Hne].
    + destruct (decide (f ∈ seen)); [done|].
      rewrite decide_True by apply seen_add_self.
      rewrite (left_id_L ∅ (∪)). unfold derived. by rewrite Hdata.
    + rewrite (url_loop_other f k rest) by done.
      rewrite (left_id_L ∅ (∪)).
      destruct (decide (f ∈ seen)).
      * by rewrite decide_True by by apply seen_add_old.
      * by rewrite decide_False by (apply seen_add_other; congruence).
Qed.

(** The record after the loop has passed a key that is not in it. *)
Lemma skip_entry {urlFields : list string} (seen : gset string)
    (data cur : record) (k : string) :
  cur = derived_at urlFields seen data ∪ flattened_at seen data →
  cur !! k = None →
  cur = derived_at urlFields (seen ∪ {[k]}) data
        ∪ flattened_at (seen ∪ {[k]}) data.
Proof.
  intros Hcur Hnone. rewrite Hcur in Hnone.
  apply lookup_union_None in Hnone as [_ Hflat].
  rewrite lookup_flattened_at, fmap_None in Hflat.
  rewrite flattened_at_absent by done. rewrite Hcur. f_equal.
  unfold derived_at. destruct urlFields as [|f rest]; [done|].
  destruct (decide (f ∈ seen)) as [Hf|Hf].
  - by rewrite decide_True by by apply seen_add_old.
  - destruct (decide (f ∈ seen ∪ {[k]})) as [Hf'|]; [|done].
    apply elem_of_union in Hf' as [Hf'|Hf']; [done|].
    apply elem_of_singleton in Hf' as ->.
    unfold derived. by rewrite Hflat.
Qed.

Lemma range_loop_closed {urlFields : list string} (data : record)
    (order : list string) :
  ∀ (seen : gset string) (cur data' : record),
    NoDup order →
    (∀ k, k ∈ order → k ∉ seen) →
    cur = derived_at urlFields seen data ∪ flattened_at seen data →
    range_loop urlFields order cur = Ok data' →
    data' = derived_at urlFields (seen ∪ list_to_set order) data
            ∪ flattened_at (seen ∪ list_to_set order) data.
Proof.
  induction order as [|k order IH]; intros seen cur data' Hnodup Hfresh Hcur.
  - simpl. intros [= <-]. by rewrite (right_id_L ∅ (∪)).
  - apply NoDup_cons in Hnodup as [Hk Hnodup].
    assert (Hseen : k ∉ seen) by (apply Hfresh; left).
    assert (Hfresh' : ∀ k', k' ∈ order → k' ∉ seen ∪ {[k]}).
    { intros k' Hk'. apply not_elem_of_union. split.
      - apply Hfresh. by right.
      - rewrite elem_of_singleton. by intros ->. }
    replace (seen ∪ list_to_set (k :: order))
      with (seen ∪ {[k]} ∪ list_to_set order)
      by (by rewrite list_to_set_cons, (assoc_L (∪))).
    simpl. destruct (cur !! k) as [v|] eqn:Hv.
    + destruct (clean_entry urlFields k v cur) as [cur'|] eqn:Hclean; [|done].
      apply IH; [done | done |].
      by apply (visit_entry seen data cur cur' k v).
    + apply IH; [done | done |]. by apply skip_entry.
Qed.

(** The loop, once it has produced every entry of [data], leaves the
    derived fields over the flattened entries of [data]. *)
Lemma cleanData_closed {urlFields : list string} (order : list string)
    (data data' : record) :
  produces data order →
  cleanData urlFields order data = Ok data' →
  data' = derived urlFields data ∪ (flatten <$> data).
Proof.
  intros [Hnodup Hall] Hrun.
  assert (Hstart :
    data = derived_at urlFields ∅ data ∪ flattened_at ∅ data).
  { assert (derived_at urlFields ∅ data = ∅) as ->.
    { unfold derived_at. by destruct urlFields. }
    rewrite (left_id_L ∅ (∪)). apply map_eq. intros key.
    rewrite lookup_flattened_at. by destruct (data !! key). }
  pose proof (range_loop_closed data order ∅ data data' Hnodup
                (fun k _ => not_elem_of_empty k) Hstart Hrun) as ->.
  rewrite derived_at_all, flattened_at_all; [done | |];
    intros k Hk; apply elem_of_union_r, elem_of_list_to_set; auto.
Qed.

(** A pass over an entry writes strings only. *)
Lemma clean_entry_null_back {urlFields : list string} (k key : string)
    (v : value) (cur cur' : record) :
  cur !! k = Some v →
  clean_entry urlFields k v cur = Ok cur' →
  cur' !! key = Some VNull →
  cur !! key = Some VNull.
Proof.
  intros Hv Hclean.
  assert (Hnull : v ≠ VNull) by (intros ->; discriminate Hclean).
  rewrite clean_entry_ok in Hclean by done. injection Hclean as <-.
  rewrite lookup_union.
  destruct (url_loop urlFields k v ∅ !! key) as [d|] eqn:Hd.
  - rewrite union_Some_l. intros [= ->].
    by destruct (url_loop_settled k v key VNull Hd).
  - rewrite (left_id_L None (∪)), lookup_insert. case_decide; [|done].
    intros [= Hflat]. by destruct v.
Qed.

Lemma range_loop_panic {urlFields : list string} (order : list string) :
  ∀ cur : record,
    range_loop urlFields order cur = Panic →
    ∃ k, cur !! k = Some VNull.
Proof.
  induction order as [|k order IH]; intros cur; simpl; [done|].
  destruct (cur !! k) as [v|] eqn:Hv; [|apply IH].
  destruct (clean_entry urlFields k v cur) as [cur'|] eqn:Hclean.
  - intros Hrun. destruct (IH cur' Hrun) as [key Hkey].
    exists key. by apply (clean_entry_null_back k key v cur cur' Hv Hclean).
  - intros _. exists k. destruct v; try done.
Qed.

(** On a record without a null value the loop does not panic. *)
Lemma cleanData_total {urlFields : list string} (order : list string)
    (data : record) :
  (∀ k, data !! k ≠ Some VNull) →
  ∃ data', cleanData urlFields order data = Ok data'.
Proof.
  intros Hnull. unfold cleanData.
  destruct (range_loop urlFields order data) as [data'|] eqn:Hrun; [eauto|].
  destruct (range_loop_panic order data Hrun) as [k Hk].
  by destruct (Hnull k).
Qed.

End Normalizer.

Section NormalizerClaims.

Context `{Externals}.

Lemma shape_fields_lookups (k : string) (res : Result) (m : record) :
  let m' := shape_fields k res m in
  m' !! (k +:+ ".path") = Some (VString (Path res))
  ∧ (∀ pk pv, PathFields res !! pk = Some pv →
       m' !! (k +:+ ".pathFields." +:+ pk)
       = Some (VString (strings_Join pv ",")))
  ∧ m' !! (k +:+ ".pathShape") = Some (VString (PathShape res))
  ∧ m' !! (k +:+ ".query") = Some (VString (Query res))
  ∧ (∀ qk qv, QueryFields res !! qk = Some qv →
       m' !! (k +:+ ".queryFields." +:+ qk)
       = Some (VString (strings_Join qv ",")))
  ∧ m' !! (k +:+ ".queryShape") = Some (VString (QueryShape res))
  ∧ m' !! (k +:+ ".uri") = Some (VString (URI res)).
Proof.
  unfold shape_fields. cbn zeta.
  repeat split; intros;
    repeat first [ rewrite lookup_insert_ne by key_neq
                 | rewrite add_fields_other by (intros; key_neq) ];
    first [ apply lookup_insert_eq | by apply add_fields_lookup ].
Qed.

Lemma range_loop_first (f : string) (rest order : list string) :
  ∀ data : record,
    range_loop (f :: rest) order data = range_loop [f] order data.
Proof.
  induction order as [|k order IH]; intros data; simpl; [done|].
  destruct (data !! k) as [v|]; [|apply IH].
  change (clean_entry (f :: rest) k v data) with (clean_entry [f] k v data).
  destruct (clean_entry [f] k v data); [apply IH | done].
Qed.

(** C2, as the code has it: when the string form of the first configured
    URL field parses, the loop leaves each derived field, [path],
    [pathFields.<name>], [pathShape], [query], [queryFields.<name>],
    [queryShape] and [uri], holding the value of the parse, whatever the
    record held under that name before. *)
Theorem decomposition_sets_derived_fields (f : string)
    (rest order : list string) (data data' : record) (v : value)
    (res : Result) :
  produces data order →
  data !! f = Some v →
  shaper_Parse (Sprintf v) = Some res →
  cleanData (f :: rest) order data = Ok data' →
  data' !! (f +:+ ".path") = Some (VString (Path res))
  ∧ (∀ pk pv, PathFields res !! pk = Some pv →
       data' !! (f +:+ ".pathFields." +:+ pk)
       = Some (VString (strings_Join pv ",")))
  ∧ data' !! (f +:+ ".pathShape") = Some (VString (PathShape res))
  ∧ data' !! (f +:+ ".query") = Some (VString (Query res))
  ∧ (∀ qk qv, QueryFields res !! qk = Some qv →
       data' !! (f +:+ ".queryFields." +:+ qk)
       = Some (VString (strings_Join qv ",")))
  ∧ data' !! (f +:+ ".queryShape") = Some (VString (QueryShape res))
  ∧ data' !! (f +:+ ".uri") = Some (VString (URI res)).
Proof.
  intros Horder Hf Hparse Hrun.
  rewrite (cleanData_closed order data data' Horder Hrun).
  assert (derived (f :: rest) data = shape_fields f res ∅) as ->.
  { unfold derived, url_loop. by rewrite Hf, decide_True, Hparse. }
  destruct (shape_fields_lookups f res ∅)
    as (Hpath & Hpf & Hps & Hq & Hqf & Hqs & Huri).
  repeat split; intros; apply lookup_union_Some_l; auto.
Qed.

(** C3: a record whose only field is null makes the loop panic, at the
    call [reflect.TypeOf(v).Kind()]. *)
Theorem null_field_panics (urlFields order : list string) (k : string) :
  k ∈ order →
  cleanData urlFields order {[ k := VNull ]} = Panic.
Proof.
  unfold cleanData. induction order as [|k' order IH]; intros Hk.
  - by apply elem_of_nil in Hk.
  - simpl. destruct (decide (k' = k)) as [->|Hne].
    + by rewrite lookup_singleton_eq.
    + rewrite lookup_singleton_ne by done. apply IH.
      apply elem_of_cons in Hk as [->|]; done.
Qed.

(** C6, as the code has it: when the loop returns, a field that held a
    list holds the comma-joined string forms of the elements, unless the
    decomposition of the first configured URL field writes a derived field
    of that name, which then holds the derived value. *)
Theorem list_field_is_joined (urlFields order : list string)
    (data data' : record) (k : string) (elems : list value) :
  produces data order →
  data !! k = Some (VList elems) →
  cleanData urlFields order data = Ok data' →
  data' !! k
  = match derived urlFields data !! k with
    | Some d => Some d
    | None => Some (VString (strings_Join (List.map Sprintf elems) ","))
    end.
Proof.
  intros Horder Hk Hrun.
  rewrite (cleanData_closed order data data' Horder Hrun).
  rewrite lookup_union, lookup_fmap, Hk. simpl.
  by destruct (derived urlFields data !! k).
Qed.

(** C7: only the first configured URL field is compared with the key of
    an entry: the fields configured after it do not change what the loop
    does, and when the record lacks the first field nothing is decomposed,
    whatever it holds at the others. *)
Theorem only_first_url_field (f : string) (rest order : list string)
    (data : record) :
  cleanData (f :: rest) order data = cleanData [f] order data
  ∧ (∀ data', produces data order →
       data !! f = None →
       cleanData (f :: rest) order data = Ok data' →
       data' = flatten <$> data).
Proof.
  split; [apply range_loop_first|].
  intros data' Horder Hf Hrun.
  rewrite (cleanData_closed order data data' Horder Hrun).
  unfold derived. by rewrite Hf, (left_id_L ∅ (∪)).
Qed.

End NormalizerClaims.

(** ** The ingestion loop *)

Lemma int_incr_small (x : Z) : 0 ≤ x → x + 1 < 2 ^ 63 → int_incr x = x + 1.
Proof.
  intros Hx Hlt. unfold int_incr, int_wrap.
  rewrite Z.mod_small; lia.
Qed.

Section Ingestion.

Context `{Externals}.
Variables samplingFields urlFields : list string.

(** One pass counts the line, counts at most one success and only for a
    line that decodes, and panics only on a decoded record with a null
    field. *)
Lemma scan_body_counts (rawData : string) (st : Handler) :
  0 ≤ success st ≤ total st →
  total st + 1 < 2 ^ 63 →
  match scan_body samplingFields urlFields rawData st with
  | Continue st' =>
      total st' = total st + 1
      ∧ success st ≤ success st'
        ≤ success st + (if is_decodable rawData then 1 else 0)
  | Abort st' =>
      total st' = total st + 1 ∧ success st' = success st
      ∧ has_null_field rawData
  end.
Proof.
  intros Hsucc Htotal. unfold scan_body, is_decodable, has_null_field.
  rewrite int_incr_small by lia.
  destruct (json_Unmarshal rawData) as [data|]; [|simpl; lia].
  destruct (cleanData _ _ data) as [data'|] eqn:Hclean.
  - rewrite determineSampleRate_eq. cbn zeta.
    destruct (_ =? 0); [|simpl; lia].
    destruct (ev_Add _ _) as [ev|]; [|simpl; lia].
    destruct (ev_SendPresampled _ _) as [[] w']; simpl; [|lia].
    rewrite int_incr_small by lia. lia.
  - simpl. repeat split; [done..|].
    destruct (range_loop_panic _ _ Hclean) as [k Hk]. eauto.
Qed.

Lemma scan_loop_counts (lines : list string) :
  ∀ st : Handler,
    0 ≤ success st ≤ total st →
    total st + Z.of_nat (length lines) < 2 ^ 63 →
    match scan_loop samplingFields urlFields lines st with
    | Exhausted st' =>
        total st' = total st + Z.of_nat (length lines)
        ∧ success st ≤ success st'
          ≤ success st + Z.of_nat (length (List.filter is_decodable lines))
    | Panicked rawData st' =>
        has_null_field rawData
        ∧ ∃ before rest,
            lines = before ++ rawData :: rest
            ∧ total st' = total st + Z.of_nat (length before) + 1
            ∧ success st ≤ success st'
              ≤ success st
                + Z.of_nat (length (List.filter is_decodable before))
    end.
Proof.
  induction lines as [|rawData lines IH]; intros st Hsucc Htotal.
  - simpl. lia.
  - cbn [scan_loop]. cbn [length] in Htotal.
    pose proof (scan_body_counts rawData st Hsucc ltac:(lia)) as Hbody.
    destruct (scan_body samplingFields urlFields rawData st) as [st1|st1].
    + destruct Hbody as [Ht1 Hs1].
      assert (Hdec : 0 ≤ (if is_decodable rawData then 1 else 0) ≤ 1)
        by (destruct (is_decodable rawData); lia).
      specialize (IH st1 ltac:(lia) ltac:(lia)).
      destruct (scan_loop samplingFields urlFields lines st1) as [st2|raw st2].
      * cbn [List.filter length].
        destruct (is_decodable rawData); cbn [length]; lia.
      * destruct IH as (Hnull & before & rest & -> & Ht2 & Hs2).
        split; [done|]. exists (rawData :: before), rest.
        split; [done|]. cbn [List.filter length].
        destruct (is_decodable rawData); cbn [length]; lia.
    + destruct Hbody as (Ht1 & Hs1 & Hnull). split; [done|].
      exists [], lines. simpl. split; [done|]. lia.
Qed.

(** The loop panics only at a decoded record with a null field. *)
Lemma scan_loop_panicked (lines : list string) :
  ∀ (st st' : Handler) (rawData : string),
    scan_loop samplingFields urlFields lines st = Panicked rawData st' →
    rawData ∈ lines ∧ has_null_field rawData.
Proof.
  induction lines as [|raw lines IH]; intros st st' rawData; [done|].
  cbn [scan_loop].
  destruct (scan_body samplingFields urlFields raw st) as [st1|st1] eqn:Hbody.
  - intros Hloop. destruct (IH _ _ _ Hloop). split; [by right | done].
  - intros [= <- <-]. split; [by left|].
    unfold scan_body, has_null_field in *.
    destruct (json_Unmarshal raw) as [data|]; [|done].
    destruct (cleanData _ _ data) as [data'|] eqn:Hclean.
    + rewrite determineSampleRate_eq in Hbody. cbn zeta in Hbody.
      destruct (_ =? 0); [|done].
      destruct (ev_Add _ _); [|done].
      by destruct (ev_SendPresampled _ _) as [[] ?].
    + destruct (range_loop_panic _ _ Hclean) as [k Hk]. eauto.
Qed.

(** C1, as the code has it: a line that exceeds [MaxLineLength] ends the
    scan, and so does a line of [MaxLineLength] bytes that a further byte
    of the body follows, were it only its newline.  The handler does with
    the body what it does with the part before that line: the line and
    every line after it are neither counted nor processed. *)
Theorem long_line_stops_the_scan (pre long rest : string) (eof eof' : bool)
    (w : World) :
  bufio.at_line_end pre = true →
  bufio.no_newline long = true →
  MaxLineLength ≤ Z.of_nat (String.length long) →
  MaxLineLength
  < Z.of_nat (String.length long) + Z.of_nat (String.length rest) →
  readNewData samplingFields urlFields
    {| bufio.content := pre +:+ long +:+ rest; bufio.eof_with_data := eof |}
    w
  = readNewData samplingFields urlFields
      {| bufio.content := pre; bufio.eof_with_data := eof' |} w.
Proof.
  intros Hpre Hlong Hlen Hmore. unfold readNewData.
  by rewrite (Scan_stops_at_long_line eof eof').
Qed.

(** C4: every pass counts its line in [total]; the pass over a line that
    does not decode leaves [success] as it is and goes on to the next line.
    When the handler returns, [total] is the number of scanned lines and
    [success] at most the number of those that decode (of 10 lines with 3
    malformed: 10 and at most 7); when it does not, it panicked on a
    decoded record with a null field, never on a malformed line. *)
Theorem malformed_lines_do_not_abort (body : bufio.Reader) (w : World) :
  Z.of_nat (length (bufio.Scan MaxLineLength body)) < 2 ^ 63 →
  (∀ rawData st,
     total (locals_after (scan_body samplingFields urlFields rawData st))
     = int_incr (total st))
  ∧ (∀ rawData st,
       json_Unmarshal rawData = None →
       scan_body samplingFields urlFields rawData st
       = Continue {| total := int_incr (total st); success := success st;
                     printed := printed st ++ [JsonParsingError rawData];
                     world := world st |})
  ∧ match readNewData samplingFields urlFields body w with
    | Ok resp =>
        reported_total resp
        = Z.of_nat (length (bufio.Scan MaxLineLength body))
        ∧ 0 ≤ reported_success resp
          ≤ Z.of_nat
              (length
                 (List.filter is_decodable
                    (bufio.Scan MaxLineLength body)))
    | Panic =>
        ∃ rawData,
          rawData ∈ bufio.Scan MaxLineLength body ∧ has_null_field rawData
    end.
Proof.
  intros Hlen. split; [|split].
  - intros rawData st. unfold scan_body.
    destruct (json_Unmarshal rawData) as [data|]; [|done].
    destruct (cleanData _ _ data) as [data'|]; [|done].
    rewrite determineSampleRate_eq. cbn zeta.
    destruct (_ =? 0); [|done].
    destruct (ev_Add _ _) as [ev|]; [|done].
    by destruct (ev_SendPresampled _ _) as [[] w'].
  - intros rawData st Hbad. unfold scan_body. by rewrite Hbad.
  - unfold readNewData.
    pose proof (scan_loop_counts (bufio.Scan MaxLineLength body)
      {| total := 0; success := 0; printed := []; world := w |}
      ltac:(simpl; lia) ltac:(simpl; lia)) as Hcounts.
    destruct (scan_loop samplingFields urlFields _ _)
      as [st|rawData st] eqn:Hloop.
    + simpl in *. lia.
    + exists rawData. by apply (scan_loop_panicked _ _ _ _ Hloop).
Qed.

(** C5: when the loop over the body ends, the status written is 200,
    whatever the lines were and whatever the decoder, the sampler and the
    sink answered; the handler fails to write it only when a pass panicked,
    on a decoded record with a null field. *)
Theorem status_is_always_200 (body : bufio.Reader) (w : World) :
  match readNewData samplingFields urlFields body w with
  | Ok resp => status resp = 200
  | Panic =>
      ∃ rawData,
        rawData ∈ bufio.Scan MaxLineLength body ∧ has_null_field rawData
  end.
Proof.
  unfold readNewData.
  destruct (scan_loop samplingFields urlFields _ _)
    as [st|rawData st] eqn:Hloop; [done|].
  exists rawData. by apply (scan_loop_panicked _ _ _ _ Hloop).
Qed.

End Ingestion.

(** ** The handler on concrete lines *)

Section Examples.

#[local] Existing Instance demo.

Lemma produces_keys_of (data : record) : produces data (keys_of data).
Proof.
  split; [apply NoDup_fst_map_to_list|].
  intros k [v Hv]. apply list_elem_of_fmap. exists (k, v).
  split; [done|]. by apply elem_of_map_to_list.
Qed.

Lemma demo_draw_in_range (n wa : Z) : 0 < n → 0 ≤ (rand_draw n wa).1 < n.
Proof. intros Hn. simpl. by apply Z.mod_pos_bound. Qed.

(** The ten lines, with their three decode errors and one send error. *)
Example ten_lines_summary :
  readNewData ["user"] ["path"] (http_body ten_lines) 0
  = Ok {| status := 200; reported_success := 5; reported_total := 10;
          output := [JsonParsingError "oops"; JsonParsingError "{";
                     JsonParsingError "}"; EventSendError line_empty;
                     Sampled 5 10];
          after := 7 |}.
Proof. vm_compute. reflexivity. Qed.

(** A body of two lines, the first one byte longer than [MaxLineLength]:
    the handler counts no line at all, although it counts and forwards the
    second line when that line comes alone. *)
Lemma long_line_drops_the_rest :
  readNewData ["user"] ["path"]
    (http_body (over_long_line +:+ nl +:+ line_user)) 0
  = Ok {| status := 200; reported_success := 0; reported_total := 0;
          output := [Sampled 0 0]; after := 0 |}
  ∧ readNewData ["user"] ["path"] (http_body line_user) 0
    = Ok {| status := 200; reported_success := 1; reported_total := 1;
            output := [Sampled 1 1]; after := 1 |}.
Proof. split; vm_compute; reflexivity. Qed.

(** A last line of exactly [MaxLineLength] bytes and no newline reaches
    the loop when the reader reports the end with it, and ends the scan
    when the reader does not: the lengths of the scanned lines. *)
Example last_line_of_max_bytes :
  List.map (fun l => Z.of_nat (String.length l))
    (bufio.Scan MaxLineLength (http_body (line_user +:+ nl +:+ long_line)))
  = [Z.of_nat (String.length line_user); MaxLineLength]
  ∧ List.map (fun l => Z.of_nat (String.length l))
      (bufio.Scan MaxLineLength
         (plain_body (line_user +:+ nl +:+ long_line)))
    = [Z.of_nat (String.length line_user)].
Proof. split; vm_compute; reflexivity. Qed.

Lemma long_line_stops_the_scan_witness :
  bufio.at_line_end (line_empty +:+ nl) = true
  ∧ bufio.no_newline long_line = true
  ∧ MaxLineLength ≤ Z.of_nat (String.length long_line)
  ∧ MaxLineLength
    < Z.of_nat (String.length long_line)
      + Z.of_nat (String.length (nl +:+ line_user))
  ∧ readNewData ["user"] ["path"]
      {| bufio.content :=
           (line_empty +:+ nl) +:+ long_line +:+ nl +:+ line_user;
         bufio.eof_with_data := true |} 0
    = readNewData ["user"] ["path"]
        {| bufio.content := line_empty +:+ nl;
           bufio.eof_with_data := false |} 0.
Proof.
  assert (H1 : bufio.at_line_end (line_empty +:+ nl) = true)
    by (vm_compute; reflexivity).
  assert (H2 : bufio.no_newline long_line = true)
    by (vm_compute; reflexivity).
  assert (H3 : MaxLineLength ≤ Z.of_nat (String.length long_line))
    by (apply Z.leb_le; vm_compute; reflexivity).
  assert (H4 : MaxLineLength
               < Z.of_nat (String.length long_line)
                 + Z.of_nat (String.length (nl +:+ line_user)))
    by (apply Z.ltb_lt; vm_compute; reflexivity).
  split; [exact H1|]. split; [exact H2|]. split; [exact H3|].
  split; [exact H4|].
  exact (long_line_stops_the_scan ["user"] ["path"]
           (line_empty +:+ nl) long_line (nl +:+ line_user) true false 0
           H1 H2 H3 H4).
Defined.

(** The field [path.path] of the record is replaced by the path of the
    parse; and with [path] configured second, the record is left without
    any derived field. *)
Lemma derived_field_is_overwritten :
  taken_record !! "path.path" = Some (VString "mine")
  ∧ match cleanData ["path"] (keys_of taken_record) taken_record with
    | Ok data' => data' !! "path.path" = Some (VString "/x")
    | Panic => False
    end
  ∧ cleanData ["referer"; "path"] (keys_of user_record) user_record
    = Ok user_record.
Proof. split; [|split]; vm_compute; reflexivity. Qed.

Lemma decomposition_sets_derived_fields_witness :
  produces user_record (keys_of user_record)
  ∧ user_record !! "path" = Some (VString "/x?y=2")
  ∧ shaper_Parse (Sprintf (VString "/x?y=2")) = Some demo_result
  ∧ cleanData ["path"] (keys_of user_record) user_record
    = Ok user_record_cleaned
  ∧ user_record_cleaned !! "path.path" = Some (VString "/x").
Proof.
  assert (H1 := produces_keys_of user_record).
  assert (H2 : user_record !! "path" = Some (VString "/x?y=2"))
    by reflexivity.
  assert (H3 : shaper_Parse (Sprintf (VString "/x?y=2")) = Some demo_result)
    by reflexivity.
  assert (H4 : cleanData ["path"] (keys_of user_record) user_record
               = Ok user_record_cleaned) by (vm_compute; reflexivity).
  split; [exact H1|]. split; [exact H2|]. split; [exact H3|].
  split; [exact H4|].
  exact (proj1 (decomposition_sets_derived_fields "path" []
                  (keys_of user_record) user_record user_record_cleaned
                  (VString "/x?y=2") demo_result H1 H2 H3 H4)).
Defined.

Lemma null_field_panics_witness :
  "a" ∈ ["a"] ∧ cleanData ["path"] ["a"] {[ "a" := VNull ]} = Panic.
Proof.
  assert (H1 : "a" ∈ ["a"]) by (by left).
  split; [done|]. exact (null_field_panics ["path"] ["a"] "a" H1).
Defined.

(** A list under the name of a derived field ends as the derived value,
    not as the join of its elements. *)
Lemma list_at_derived_name_is_not_joined :
  list_at_derived_record !! "path.path" = Some (VList abc)
  ∧ strings_Join (List.map Sprintf abc) "," = "a,b,c"
  ∧ match cleanData ["path"] (keys_of list_at_derived_record)
            list_at_derived_record with
    | Ok data' => data' !! "path.path" = Some (VString "/x")
    | Panic => False
    end.
Proof. split; [|split]; vm_compute; reflexivity. Qed.

Lemma list_field_is_joined_witness :
  produces tags_record (keys_of tags_record)
  ∧ tags_record !! "tags" = Some (VList abc)
  ∧ cleanData ["path"] (keys_of tags_record) tags_record
    = Ok {[ "tags" := VString "a,b,c" ]}
  ∧ ({[ "tags" := VString "a,b,c" ]} : record) !! "tags"
    = Some (VString "a,b,c").
Proof.
  assert (H1 := produces_keys_of tags_record).
  assert (H2 : tags_record !! "tags" = Some (VList abc)) by reflexivity.
  assert (H3 : cleanData ["path"] (keys_of tags_record) tags_record
               = Ok {[ "tags" := VString "a,b,c" ]})
    by (vm_compute; reflexivity).
  split; [exact H1|]. split; [exact H2|]. split; [exact H3|].
  exact (list_field_is_joined ["path"] (keys_of tags_record) tags_record
           {[ "tags" := VString "a,b,c" ]} "tags" abc H1 H2 H3).
Defined.

Lemma only_first_url_field_witness :
  produces user_record (keys_of user_record)
  ∧ user_record !! "referer" = None
  ∧ cleanData ["referer"; "path"] (keys_of user_record) user_record
    = Ok user_record
  ∧ cleanData ["referer"; "path"] (keys_of user_record) user_record
    = cleanData ["referer"] (keys_of user_record) user_record
  ∧ user_record = flatten <$> user_record.
Proof.
  assert (H1 := produces_keys_of user_record).
  assert (H2 : user_record !! "referer" = None) by reflexivity.
  assert (H3 : cleanData ["referer"; "path"] (keys_of user_record) user_record
               = Ok user_record) by (vm_compute; reflexivity).
  pose proof (only_first_url_field "referer" ["path"] (keys_of user_record)
                user_record) as [Hsame Hnone].
  split; [exact H1|]. split; [exact H2|]. split; [exact H3|].
  split; [exact Hsame|].
  exact (Hnone user_record H1 H2 H3).
Defined.

Lemma sampling_key_is_join_witness :
  (∀ f, f ∈ ["user"] → user_record !! f
                       = ({[ "user" := VString "a" ]} : record) !! f)
  ∧ key_of (determineSampleRate ["user"] user_record 0) = Some "a"
  ∧ key_of (determineSampleRate ["user"] {[ "user" := VString "a" ]} 5)
    = key_of (determineSampleRate ["user"] user_record 0).
Proof.
  assert (H1 : ∀ f, f ∈ ["user"] →
            user_record !! f = ({[ "user" := VString "a" ]} : record) !! f).
  { intros f Hf. apply list_elem_of_singleton in Hf. by subst f. }
  split; [done|].
  exact (sampling_key_is_join ["user"] user_record
           {[ "user" := VString "a" ]} 0 5 H1).
Defined.

Lemma decision_clamps_then_draws_witness :
  (∀ n wa, 0 < n → 0 ≤ (rand_draw n wa).1 < n)
  ∧ sampler_GetSampleRate "a" 0 = (-1, 0)
  ∧ 1 ≤ 1
  ∧ rand_Intn 1 0 = (Ok 0, 1)
  ∧ 0 ≤ 0 < 1
  ∧ determineSampleRate ["user"] user_record 0 = (Ok (1, true, "a"), 1)
  ∧ (1 = 1 → true = true).
Proof.
  split; [exact demo_draw_in_range|]. split; [reflexivity|].
  exact (decision_clamps_then_draws ["user"] user_record 0
           demo_draw_in_range).
Defined.

Lemma malformed_lines_do_not_abort_witness :
  Z.of_nat (length (bufio.Scan MaxLineLength (http_body ten_lines))) < 2 ^ 63
  ∧ length (bufio.Scan MaxLineLength (http_body ten_lines)) = 10%nat
  ∧ length (List.filter is_decodable (bufio.Scan MaxLineLength (http_body ten_lines)))
    = 7%nat
  ∧ match readNewData ["user"] ["path"] (http_body ten_lines) 0 with
    | Ok resp =>
        reported_total resp
        = Z.of_nat (length (bufio.Scan MaxLineLength (http_body ten_lines)))
        ∧ 0 ≤ reported_success resp
          ≤ Z.of_nat
              (length
                 (List.filter is_decodable
                    (bufio.Scan MaxLineLength (http_body ten_lines))))
    | Panic =>
        ∃ rawData,
          rawData ∈ bufio.Scan MaxLineLength (http_body ten_lines)
          ∧ has_null_field rawData
    end.
Proof.
  assert (H1 : Z.of_nat (length (bufio.Scan MaxLineLength (http_body ten_lines)))
               < 2 ^ 63) by (vm_compute; reflexivity).
  split; [exact H1|]. split; [vm_compute; reflexivity|].
  split; [vm_compute; reflexivity|].
  pose proof (malformed_lines_do_not_abort ["user"] ["path"] (http_body ten_lines) 0 H1)
    as (_ & _ & Hcounts).
  exact Hcounts.
Defined.

End Examples.

(** ** Further properties: the scanner *)

Lemma string_app_assoc (a b c : string) : (a +:+ b) +:+ c = a +:+ b +:+ c.
Proof. induction a as [|x a IH]; simpl; [done|]. by rewrite IH. Qed.

Lemma string_length_app (a b : string) :
  String.length (a +:+ b) = (String.length a + String.length b)%nat.
Proof. induction a as [|x a IH]; simpl; [done|]. by rewrite IH. Qed.

Lemma rev_app_length (s t : string) :
  String.length (String.rev_app s t)
  = (String.length s + String.length t)%nat.
Proof.
  revert t. induction s as [|c s IH]; intros t; simpl; [done|].
  rewrite IH. simpl. lia.
Qed.

Lemma rev_app_no_newline (s t : string) :
  bufio.no_newline (String.rev_app s t)
  = bufio.no_newline s && bufio.no_newline t.
Proof.
  revert t. induction s as [|c s IH]; intros t; simpl; [done|].
  rewrite IH. simpl. by destruct (Ascii.eqb c "010"), (bufio.no_newline s).
Qed.

Lemma rev_app_rev_app (s t u : string) :
  String.rev_app (String.rev_app s t) u = String.rev_app t (s +:+ u).
Proof.
  revert t u. induction s as [|c s IH]; intros t u; simpl; [done|].
  by rewrite IH.
Qed.

Lemma rev_rev (s : string) : String.rev (String.rev s) = s.
Proof.
  unfold String.rev. rewrite rev_app_rev_app. simpl.
  induction s as [|c s IH]; simpl; [done|]. by rewrite IH.
Qed.

(** [dropCR] gives the line back, or the line less a carriage return at
    its end. *)
Lemma dropCR_rev_cases (cur : string) :
  bufio.dropCR_rev cur = String.rev cur
  ∨ ∃ s, cur = String "013"%char s ∧ bufio.dropCR_rev cur = String.rev s.
Proof.
  destruct cur as [|c s]; [by left|].
  destruct (Ascii.eqb_spec c "013"%char) as [->|Hne]; [right; eauto|].
  left. destruct c as [[] [] [] [] [] [] [] []]; try done.
Qed.

Lemma dropCR_rev_other (c : ascii) (s : string) :
  Ascii.eqb c "013"%char = false →
  bufio.dropCR_rev (String c s) = String.rev (String c s).
Proof.
  intros Hc. destruct (dropCR_rev_cases (String c s)) as [|(t & [= -> _] & _)];
    [done|]. done.
Qed.

Section ScannerTokens.

Variable max : Z.
Variable eof : bool.

Lemma dropCR_rev_bounds (cur : string) (bound : Z) :
  Z.of_nat (String.length cur) ≤ bound →
  bufio.no_newline cur = true →
  Z.of_nat (String.length (bufio.dropCR_rev cur)) ≤ bound
  ∧ bufio.no_newline (bufio.dropCR_rev cur) = true.
Proof.
  intros Hlen Hnl.
  destruct (dropCR_rev_cases cur) as [->|(s & -> & ->)]; unfold String.rev;
    rewrite rev_app_length, rev_app_no_newline; simpl in *.
  - split; [lia|]. by rewrite Hnl.
  - split; [lia|]. by rewrite Hnl.
Qed.

Lemma scan_from_tokens (input : string) :
  ∀ (cur : string) (n : Z) (token : string),
    n = Z.of_nat (String.length cur) →
    n < max →
    bufio.no_newline cur = true →
    token ∈ bufio.scan_from max eof input cur n →
    Z.of_nat (String.length token) ≤ max
    ∧ bufio.no_newline token = true
    ∧ (eof = false → Z.of_nat (String.length token) < max).
Proof.
  induction input as [|c input IH]; intros cur n token Hn Hlt Hnl.
  - simpl. destruct cur as [|c cur]; [by intros ?%elem_of_nil|].
    intros ->%list_elem_of_singleton.
    destruct (dropCR_rev_bounds (String c cur) (max - 1)) as [Hlen Hline];
      [lia | done |].
    split; [lia|]. split; [done|]. lia.
  - cbn [bufio.scan_from]. destruct (Ascii.eqb c "010") eqn:Hc.
    + intros [->|Hin]%elem_of_cons.
      * destruct (dropCR_rev_bounds cur (max - 1)) as [Hlen Hline];
          [lia | done |].
        split; [lia|]. split; [done|]. lia.
      * apply (IH "" 0 token); [done | lia | done | done].
    + destruct (Z.leb_spec max (n + 1)).
      * destruct input as [|c' input]; [|by intros ?%elem_of_nil].
        destruct eof; [|by intros ?%elem_of_nil].
        intros ->%list_elem_of_singleton.
        destruct (dropCR_rev_bounds (String c cur) max) as [Hlen Hline].
        { simpl. lia. }
        { simpl. by rewrite Hc. }
        done.
      * apply IH; [simpl; lia | done |]. simpl. by rewrite Hc.
Qed.

Lemma scan_consume (l : string) :
  ∀ (cur : string) (n : Z) (tail : string),
    bufio.no_newline l = true →
    n + Z.of_nat (String.length l) < max →
    bufio.scan_from max eof (l +:+ tail) cur n
    = bufio.scan_from max eof tail (String.rev_app l cur)
        (n + Z.of_nat (String.length l)).
Proof.
  induction l as [|c l IH]; intros cur n tail Hnl Hlen.
  - simpl. by rewrite Z.add_0_r.
  - simpl in Hnl. apply andb_prop in Hnl as [Hc Hnl].
    apply negb_true_iff in Hc.
    change (String.length (String c l)) with (S (String.length l)) in *.
    rewrite Nat2Z.inj_succ in *.
    change (String c l +:+ tail) with (String c (l +:+ tail)).
    cbn [bufio.scan_from String.rev_app]. rewrite Hc.
    destruct (Z.leb_spec max (n + 1)) as [Hge|Hlt]; [exfalso; lia|].
    rewrite IH by (done || lia). f_equal. lia.
Qed.

Lemma dropCR_rev_app (l : string) :
  ∀ t : string,
    ends_in_CR l = false →
    (l = "" → bufio.dropCR_rev t = String.rev t) →
    bufio.dropCR_rev (String.rev_app l t) = String.rev (String.rev_app l t).
Proof.
  induction l as [|c l IH]; intros t Hcr Ht; [by apply Ht|].
  cbn [String.rev_app]. apply IH.
  - by destruct l.
  - intros ->. simpl in Hcr. by apply dropCR_rev_other.
Qed.

Lemma scan_line (line : string * bool) (rest : string) :
  fits max line = true →
  bufio.scan_from max eof (line.1 +:+ eol line.2 +:+ rest) "" 0
  = line.1 :: bufio.scan_from max eof rest "" 0.
Proof.
  destruct line as [l crlf]. unfold fits. cbn [fst snd].
  intros [[Hnl Hcr]%andb_prop Hlen%Z.ltb_lt]%andb_prop.
  rewrite scan_consume by (done || destruct crlf; lia).
  destruct crlf; simpl.
  - destruct (Z.leb_spec max (0 + Z.of_nat (String.length l) + 1)); [lia|].
    f_equal. exact (rev_rev l).
  - apply negb_true_iff in Hcr.
    f_equal. rewrite (dropCR_rev_app l "") by done. exact (rev_rev l).
Qed.

Lemma scan_at_limit (l : string) :
  ∀ (cur : string) (n : Z),
    l ≠ "" →
    bufio.no_newline l = true →
    n + Z.of_nat (String.length l) = max →
    bufio.scan_from max eof l cur n
    = if eof then [bufio.dropCR_rev (String.rev_app l cur)] else [].
Proof.
  induction l as [|c l IH]; intros cur n Hne Hnl Hlen; [done|].
  simpl in Hnl. apply andb_prop in Hnl as [Hc Hnl].
  apply negb_true_iff in Hc.
  change (String.length (String c l)) with (S (String.length l)) in *.
  rewrite Nat2Z.inj_succ in *.
  cbn [bufio.scan_from String.rev_app]. rewrite Hc.
  destruct l as [|c' l].
  - simpl in Hlen. destruct (Z.leb_spec max (n + 1)); [done | lia].
  - destruct (Z.leb_spec max (n + 1)) as [Hge|Hlt].
    + change (String.length (String c' l)) with (S (String.length l)) in *.
      lia.
    + apply IH; [done | done | lia].
Qed.

End ScannerTokens.

(** X2: a body of lines that fit, each ended by LF or CR LF, is scanned
    into those lines, followed by what the scanner makes of the rest of the
    body. *)
Theorem Scan_lines_round_trip (lines : list (string * bool)) (rest : string)
    (eof : bool) :
  Forall (fun line => fits MaxLineLength line = true) lines →
  bufio.Scan MaxLineLength
    {| bufio.content := lines_body lines +:+ rest;
       bufio.eof_with_data := eof |}
  = lines.*1
    ++ bufio.Scan MaxLineLength
         {| bufio.content := rest; bufio.eof_with_data := eof |}.
Proof.
  unfold bufio.Scan. cbn [bufio.content bufio.eof_with_data].
  induction 1 as [|[l crlf] lines Hfit _ IH]; [done|].
  cbn [lines_body fmap list_fmap app fst].
  rewrite !string_app_assoc.
  rewrite (scan_line MaxLineLength eof (l, crlf)) by done.
  cbn [fst]. f_equal. exact IH.
Qed.

(** X16: after lines that fit, a last line of exactly [MaxLineLength]
    bytes with no newline after it reaches the loop when the reader reports
    the end of the body together with its last bytes, and is lost when the
    reader reports the end by a read of its own. *)
Theorem last_line_at_the_limit (lines : list (string * bool)) (last : string)
    (eof : bool) :
  Forall (fun line => fits MaxLineLength line = true) lines →
  bufio.no_newline last = true →
  ends_in_CR last = false →
  Z.of_nat (String.length last) = MaxLineLength →
  bufio.Scan MaxLineLength
    {| bufio.content := lines_body lines +:+ last;
       bufio.eof_with_data := eof |}
  = lines.*1 ++ (if eof then [last] else []).
Proof.
  intros Hlines Hnl Hcr Hlen. rewrite Scan_lines_round_trip by done.
  f_equal. unfold bufio.Scan. cbn [bufio.content bufio.eof_with_data].
  rewrite (scan_at_limit MaxLineLength eof last "" 0); [| |done|lia].
  - destruct eof; [|done].
    rewrite (dropCR_rev_app last "") by done.
    do 2 f_equal. exact (rev_rev last).
  - intros ->. vm_compute in Hlen. discriminate Hlen.
Qed.

(** X1: every line the loop of [readNewData] gets from the scanner holds
    no newline and at most [MaxLineLength] bytes, and fewer than that
    unless the reader reports the end of the body together with its last
    bytes. *)
Theorem scanned_lines_are_bounded (body : bufio.Reader) (rawData : string) :
  rawData ∈ bufio.Scan MaxLineLength body →
  Z.of_nat (String.length rawData) ≤ MaxLineLength
  ∧ bufio.no_newline rawData = true
  ∧ (bufio.eof_with_data body = false →
     Z.of_nat (String.length rawData) < MaxLineLength).
Proof.
  apply (scan_from_tokens MaxLineLength); done.
Qed.

(** ** Further properties: the field normalizer *)

Section NormalizerMore.

Context `{Externals}.

Lemma range_loop_null_back {urlFields : list string} (order : list string) :
  ∀ (cur data' : record) (key : string),
    range_loop urlFields order cur = Ok data' →
    data' !! key = Some VNull →
    cur !! key = Some VNull.
Proof.
  induction order as [|k order IH]; intros cur data' key; simpl.
  - by intros [= <-].
  - destruct (cur !! k) as [v|] eqn:Hv; [|apply IH].
    destruct (clean_entry urlFields k v cur) as [cur'|] eqn:Hclean; [|done].
    intros Hrun Hnull.
    apply (clean_entry_null_back k key v cur cur' Hv Hclean).
    by apply (IH cur' data').
Qed.

(** A key the loop has reached does not hold null when the loop returns. *)
Lemma range_loop_reached {urlFields : list string} (order : list string) :
  ∀ (cur data' : record) (key : string),
    range_loop urlFields order cur = Ok data' →
    key ∈ order →
    data' !! key ≠ Some VNull.
Proof.
  induction order as [|k order IH]; intros cur data' key; simpl.
  - by intros _ ?%elem_of_nil.
  - destruct (cur !! k) as [v|] eqn:Hv.
    + destruct (clean_entry urlFields k v cur) as [cur'|] eqn:Hclean; [|done].
      intros Hrun [->|Hin]%elem_of_cons; [|by apply (IH cur')].
      intros Hnull.
      pose proof (range_loop_null_back order cur' data' k Hrun Hnull) as Hk.
      pose proof (clean_entry_null_back k k v cur cur' Hv Hclean Hk) as Hcur.
      rewrite Hv in Hcur. injection Hcur as ->. done.
    + intros Hrun [->|Hin]%elem_of_cons; [|by apply (IH cur)].
      intros Hnull.
      pose proof (range_loop_null_back order cur data' k Hrun Hnull) as Hk.
      congruence.
Qed.

(** X3: on a record without a null value the normalizer returns, and what
    it returns does not depend on the order in which [range] produces the
    entries: the derived fields over the entries of the record, lists
    flattened. *)
Theorem cleanData_any_order (urlFields order : list string) (data : record) :
  produces data order →
  (∀ k, data !! k ≠ Some VNull) →
  cleanData urlFields order data
  = Ok (derived urlFields data ∪ (flatten <$> data)).
Proof.
  intros Horder Hnull.
  destruct (cleanData_total (urlFields := urlFields) order data Hnull)
    as [data' Hrun].
  by rewrite Hrun, (cleanData_closed order data data' Horder Hrun).
Qed.

(** X4: a null value under a name that the decomposition does not write
    makes the normalizer panic, in whatever order the entries come. *)
Theorem null_outside_derived_panics (urlFields order : list string)
    (data : record) (k : string) :
  produces data order →
  data !! k = Some VNull →
  derived urlFields data !! k = None →
  cleanData urlFields order data = Panic.
Proof.
  intros Horder Hk Hderived.
  destruct (cleanData urlFields order data) as [data'|] eqn:Hrun; [|done].
  exfalso.
  apply (range_loop_reached order data data' k Hrun).
  - destruct Horder as [_ Hall]. apply Hall. eauto.
  - rewrite (cleanData_closed order data data' Horder Hrun).
    by rewrite lookup_union_r, lookup_fmap, Hk.
Qed.

(** X5: the normalizer removes no field and adds derived fields only; a
    field whose name is not a derived one keeps its value, flattened when
    it is a list. *)
Theorem cleanData_keeps_fields (urlFields order : list string)
    (data data' : record) :
  produces data order →
  cleanData urlFields order data = Ok data' →
  dom data' = dom (derived urlFields data) ∪ dom data
  ∧ ∀ k v, data !! k = Some v →
           derived urlFields data !! k = None →
           data' !! k = Some (flatten v).
Proof.
  intros Horder Hrun.
  rewrite (cleanData_closed order data data' Horder Hrun). split.
  - by rewrite dom_union_L, dom_fmap_L.
  - intros k v Hk Hderived. by rewrite lookup_union_r, lookup_fmap, Hk.
Qed.

(** X6: when the first configured URL field holds a list, the URL parser
    is given the Go form of the slice, the elements in brackets with
    spaces between them, while the field itself ends as the comma-joined
    string. *)
Theorem url_field_list_is_parsed_in_brackets (f : string)
    (rest order : list string) (data data' : record) (elems : list value) :
  produces data order →
  data !! f = Some (VList elems) →
  cleanData (f :: rest) order data = Ok data' →
  data' !! f = Some (VString (strings_Join (List.map Sprintf elems) ","))
  ∧ data'
    = match
        shaper_Parse
          ("[" +:+ strings_Join (List.map Sprintf elems) " " +:+ "]")
      with
      | Some res => shape_fields f res (flatten <$> data)
      | None => flatten <$> data
      end.
Proof.
  intros Horder Hf Hrun.
  rewrite (cleanData_closed order data data' Horder Hrun).
  unfold derived. rewrite Hf. split.
  - by rewrite lookup_union_r, lookup_fmap, Hf by apply url_loop_not_self.
  - unfold url_loop. rewrite decide_True by done.
    change (Sprintf (VList elems))
      with ("[" +:+ strings_Join (List.map Sprintf elems) " " +:+ "]").
    destruct (shaper_Parse _) as [res|].
    + rewrite <- shape_fields_union. by rewrite (left_id_L ∅ (∪)).
    + by rewrite (left_id_L ∅ (∪)).
Qed.

End NormalizerMore.

(** ** Further properties: the sampling key *)

Lemma strings_Join_cons (x y : string) (l : list string) (sep : string) :
  strings_Join (x :: y :: l) sep = x +:+ sep +:+ strings_Join (y :: l) sep.
Proof. done. Qed.

Lemma strings_Join_length (l : list string) (sep : string) :
  String.length (strings_Join l sep)
  = (list_sum (String.length <$> l)
     + (length l - 1) * String.length sep)%nat.
Proof.
  induction l as [|x [|y l] IH]; [done | |].
  - cbn. lia.
  - rewrite strings_Join_cons, !string_length_app, IH.
    cbn [fmap list_fmap list_sum length foldr]. lia.
Qed.

(** Two strings without the byte [c], each followed by [c], are equal when
    what they begin is. *)
Lemma split_at_byte (c : ascii) (s s' t t' : string) :
  has_byte c s = false →
  has_byte c s' = false →
  s +:+ String c t = s' +:+ String c t' →
  s = s' ∧ t = t'.
Proof.
  revert s'. induction s as [|x s IH]; intros [|x' s'] Hs Hs' Heq;
    simpl in *.
  - by injection Heq as ->.
  - injection Heq as <- _. by rewrite Ascii.eqb_refl in Hs'.
  - injection Heq as -> _. by rewrite Ascii.eqb_refl in Hs.
  - injection Heq as -> Heq.
    apply orb_false_elim in Hs as [_ Hs].
    apply orb_false_elim in Hs' as [_ Hs'].
    by destruct (IH s' Hs Hs' Heq) as [-> ->].
Qed.

Lemma strings_Join_inj (c : ascii) (sep : string) (l : list string) :
  ∀ l' : list string,
    length l = length l' →
    Forall (fun s => has_byte c s = false) l →
    Forall (fun s => has_byte c s = false) l' →
    strings_Join l (String c sep) = strings_Join l' (String c sep) →
    l = l'.
Proof.
  induction l as [|x l IH]; intros [|x' l'] Hlen Hl Hl' Heq; try done.
  apply Forall_cons in Hl as [Hx Hl]. apply Forall_cons in Hl' as [Hx' Hl'].
  destruct l as [|y l], l' as [|y' l']; try done.
  - simpl in Heq. by subst.
  - rewrite !strings_Join_cons in Heq. simpl in Heq.
    destruct (split_at_byte c x x' _ _ Hx Hx' Heq) as [-> Hrest].
    apply (inj (String.app sep)) in Hrest.
    f_equal. apply IH; [simpl in *; lia | done | done | done].
Qed.

Section SamplingMore.

Context `{Externals}.
Variable samplingFields : list string.

(** X7: all the records that have none of the configured fields get one
    and the same key, the separator repeated between empty positions: seven
    bytes for each configured field but the first. *)
Theorem key_without_fields (data : record) (w : World) :
  (∀ f, f ∈ samplingFields → data !! f = None) →
  key_of (determineSampleRate samplingFields data w)
  = Some (strings_Join (replicate (length samplingFields) "")
            KeySeperatorChar)
  ∧ String.length
      (strings_Join (replicate (length samplingFields) "") KeySeperatorChar)
    = (7 * (length samplingFields - 1))%nat.
Proof.
  intros Hnone. split.
  - rewrite determineSampleRate_eq. cbn [key_of].
    rewrite sample_key_spec. unfold spec_key. do 2 f_equal.
    clear w. induction samplingFields as [|f flds IH]; [done|].
    cbn [List.map length replicate]. f_equal.
    + unfold key_position. by rewrite Hnone by left.
    + apply IH. intros g Hg. apply Hnone. by right.
  - rewrite strings_Join_length, length_replicate.
    assert (list_sum (String.length <$> replicate (length samplingFields) "")
            = 0%nat) as ->.
    { induction (length samplingFields) as [|n IH]; [done|]. exact IH. }
    change (String.length KeySeperatorChar) with 7%nat. lia.
Qed.

(** X8: when no position holds the byte 0xC3, with which the separator
    begins, the key determines every position: two records with the same
    key have the same string at each configured field. *)
Theorem key_determines_positions (data data' : record) (w w' : World) :
  (∀ f, f ∈ samplingFields →
        has_byte separator_lead (key_position data f) = false
        ∧ has_byte separator_lead (key_position data' f) = false) →
  key_of (determineSampleRate samplingFields data w)
  = key_of (determineSampleRate samplingFields data' w') →
  ∀ f, f ∈ samplingFields → key_position data f = key_position data' f.
Proof.
  intros Hclean. rewrite !determineSampleRate_eq. cbn [key_of].
  rewrite !sample_key_spec. unfold spec_key. intros [= Hkeys].
  assert (Hmaps : List.map (key_position data) samplingFields
                  = List.map (key_position data') samplingFields).
  { apply (strings_Join_inj separator_lead
             (String "162" (String "226" (String "130" (String "172"
                (String "194" (String "162" ""))))))).
    - by rewrite !length_map.
    - apply Forall_forall. intros s Hs.
      apply list_elem_of_In, in_map_iff in Hs as [f [<- Hf]].
      by apply Hclean, list_elem_of_In.
    - apply Forall_forall. intros s Hs.
      apply list_elem_of_In, in_map_iff in Hs as [f [<- Hf]].
      by apply Hclean, list_elem_of_In.
    - exact Hkeys. }
  intros f Hf.
  apply (proj1 map_ext_in_iff Hmaps). by apply list_elem_of_In.
Qed.

(** X9: the key does not tell where one position ends and the next
    begins: a separator at the end of one value and a separator at the
    start of the next give the same key. *)
Theorem key_collides_on_separator (a b x y : string) (data data' : record)
    (w w' : World) :
  data !! a = Some (VString (x +:+ KeySeperatorChar)) →
  data !! b = Some (VString y) →
  data' !! a = Some (VString x) →
  data' !! b = Some (VString (KeySeperatorChar +:+ y)) →
  key_of (determineSampleRate [a; b] data w)
  = key_of (determineSampleRate [a; b] data' w').
Proof.
  intros Ha Hb Ha' Hb'. rewrite !determineSampleRate_eq. cbn [key_of].
  rewrite !sample_key_spec. unfold spec_key, key_position.
  cbn [List.map]. rewrite Ha, Hb, Ha', Hb'. cbn [Sprintf].
  rewrite !strings_Join_cons. cbn [strings_Join].
  by rewrite !string_app_assoc.
Qed.

End SamplingMore.

(** ** Further properties: the ingestion loop *)

Section IngestionMore.

Context `{Externals}.
Variables samplingFields urlFields : list string.

Lemma scan_loop_malformed (lines : list string) :
  ∀ st : Handler,
    (∀ rawData, rawData ∈ lines → json_Unmarshal rawData = None) →
    0 ≤ total st →
    total st + Z.of_nat (length lines) < 2 ^ 63 →
    scan_loop samplingFields urlFields lines st
    = Exhausted {| total := total st + Z.of_nat (length lines);
                   success := success st;
                   printed := printed st ++ (JsonParsingError <$> lines);
                   world := world st |}.
Proof.
  induction lines as [|rawData lines IH]; intros st Hbad Htotal Hlen.
  - simpl. rewrite Z.add_0_r, app_nil_r. by destruct st.
  - cbn [scan_loop length] in *. unfold scan_body.
    rewrite (Hbad rawData) by left.
    rewrite IH; cbn [total success printed world print].
    + rewrite int_incr_small by lia. do 2 f_equal; [lia|].
      by rewrite <- app_assoc.
    + intros raw Hraw. apply Hbad. by right.
    + rewrite int_incr_small by lia. lia.
    + rewrite int_incr_small by lia. lia.
Qed.

(** X10: a body in which no line decodes gets the answer 200 with no
    success, one parse error printed for each line in order, and the
    process state (sampler, random source, sink) as it was. *)
Theorem malformed_body_touches_nothing (body : bufio.Reader) (w : World) :
  (∀ rawData, rawData ∈ bufio.Scan MaxLineLength body →
              json_Unmarshal rawData = None) →
  Z.of_nat (length (bufio.Scan MaxLineLength body)) < 2 ^ 63 →
  readNewData samplingFields urlFields body w
  = Ok {| status := 200;
          reported_success := 0;
          reported_total := Z.of_nat (length (bufio.Scan MaxLineLength body));
          output :=
            (JsonParsingError <$> bufio.Scan MaxLineLength body)
            ++ [Sampled 0
                  (Z.of_nat (length (bufio.Scan MaxLineLength body)))];
          after := w |}.
Proof.
  intros Hbad Hlen. unfold readNewData.
  by rewrite scan_loop_malformed by (done || simpl; lia).
Qed.

(** What one pass prints and counts. *)
Lemma scan_body_prints (rawData : string) (st : Handler) :
  0 ≤ success st ≤ total st →
  total st + 1 < 2 ^ 63 →
  ∀ st', scan_body samplingFields urlFields rawData st = Continue st' →
    ∃ msgs,
      printed st' = printed st ++ msgs
      ∧ length (List.filter is_parse_error msgs)
        = (if is_decodable rawData then 0 else 1)%nat
      ∧ success st' - success st
        + Z.of_nat (length (List.filter is_sink_error msgs))
        ≤ (if is_decodable rawData then 1 else 0).
Proof.
  intros Hsucc Htotal st'. unfold scan_body, is_decodable.
  destruct (json_Unmarshal rawData) as [data|].
  - destruct (cleanData _ _ data) as [data'|]; [|done].
    rewrite determineSampleRate_eq. cbn zeta.
    destruct (_ =? 0).
    + destruct (ev_Add _ _) as [ev|].
      * destruct (ev_SendPresampled _ _) as [[] w']; intros [= <-].
        -- exists []. cbn. rewrite app_nil_r, int_incr_small by lia.
           repeat split; lia.
        -- exists [EventSendError rawData]. cbn. repeat split; lia.
      * intros [= <-]. exists [EventAddError rawData]. cbn.
        repeat split; lia.
    + intros [= <-]. exists []. cbn. rewrite app_nil_r. repeat split; lia.
  - intros [= <-]. exists [JsonParsingError rawData]. cbn.
    repeat split; lia.
Qed.

Lemma scan_loop_prints (lines : list string) :
  ∀ st st' : Handler,
    0 ≤ success st ≤ total st →
    total st + Z.of_nat (length lines) < 2 ^ 63 →
    scan_loop samplingFields urlFields lines st = Exhausted st' →
    ∃ msgs,
      printed st' = printed st ++ msgs
      ∧ length (List.filter is_parse_error msgs)
        = length (List.filter (fun l => negb (is_decodable l)) lines)
      ∧ success st' - success st
        + Z.of_nat (length (List.filter is_sink_error msgs))
        ≤ Z.of_nat (length (List.filter is_decodable lines)).
Proof.
  induction lines as [|rawData lines IH]; intros st st' Hsucc Htotal.
  - intros [= <-]. exists []. simpl. rewrite app_nil_r. repeat split; lia.
  - cbn [scan_loop]. cbn [length] in Htotal.
    pose proof (scan_body_counts samplingFields urlFields rawData st Hsucc
                  ltac:(lia)) as Hcounts.
    pose proof (scan_body_prints rawData st Hsucc ltac:(lia)) as Hprints.
    destruct (scan_body samplingFields urlFields rawData st) as [st1|st1];
      [|done].
    destruct Hcounts as [Ht1 Hs1].
    destruct (Hprints st1 eq_refl) as (msgs1 & Hp1 & Hpe1 & Hse1).
    assert (Hdec : 0 ≤ (if is_decodable rawData then 1 else 0) ≤ 1)
      by (destruct (is_decodable rawData); lia).
    intros Hloop.
    destruct (IH st1 st' ltac:(lia) ltac:(lia) Hloop)
      as (msgs2 & Hp2 & Hpe2 & Hse2).
    exists (msgs1 ++ msgs2). rewrite Hp2, Hp1, <- app_assoc.
    rewrite !List.filter_app, !length_app. cbn [List.filter].
    split; [done|].
    destruct (is_decodable rawData); cbn [negb length]; split; lia.
Qed.

(** X11: when the handler returns, it has printed one parse error for each
    line that does not decode; the successes and the sink errors together
    are at most the lines that decode; and the last thing printed is the
    summary with the two counts. *)
Theorem output_accounts_for_lines (body : bufio.Reader) (w : World)
    (resp : Response) :
  Z.of_nat (length (bufio.Scan MaxLineLength body)) < 2 ^ 63 →
  readNewData samplingFields urlFields body w = Ok resp →
  length (List.filter is_parse_error (output resp))
  = length (List.filter (fun l => negb (is_decodable l))
              (bufio.Scan MaxLineLength body))
  ∧ reported_success resp
    + Z.of_nat (length (List.filter is_sink_error (output resp)))
    ≤ Z.of_nat (length (List.filter is_decodable
                          (bufio.Scan MaxLineLength body)))
  ∧ last (output resp)
    = Some (Sampled (reported_success resp) (reported_total resp)).
Proof.
  intros Hlen. unfold readNewData.
  destruct (scan_loop samplingFields urlFields _ _) as [st|? ?] eqn:Hloop;
    [|done].
  intros [= <-]. cbn [output reported_success reported_total print printed
                      success total].
  destruct (scan_loop_prints (bufio.Scan MaxLineLength body)
              {| total := 0; success := 0; printed := []; world := w |} st
              ltac:(simpl; lia) ltac:(simpl; lia) Hloop)
    as (msgs & Hp & Hpe & Hse).
  cbn [printed success app] in Hp, Hse. rewrite Hp.
  rewrite !List.filter_app, !length_app, last_snoc. cbn. 
  repeat split; lia.
Qed.

(** A pass over a line that decodes to a record without null, when the
    sampler answers at most 1 and the sink takes the event. *)
Lemma scan_body_kept (rawData : string) (data : record) (st : Handler) :
  (∀ n wa, 0 < n → 0 ≤ (rand_draw n wa).1 < n) →
  (∀ key wa, (sampler_GetSampleRate key wa).1 ≤ 1) →
  (∀ ev d, ev_Add ev d ≠ None) →
  (∀ ev wa, (ev_SendPresampled ev wa).1 = true) →
  json_Unmarshal rawData = Some data →
  (∀ k, data !! k ≠ Some VNull) →
  ∃ w', scan_body samplingFields urlFields rawData st
        = Continue {| total := int_incr (total st);
                      success := int_incr (success st);
                      printed := printed st; world := w' |}.
Proof.
  intros Hdraw Hrate Hadd Hsend Hdata Hnull. unfold scan_body.
  rewrite Hdata. cbn [world].
  destruct (cleanData_total (urlFields := urlFields)
              (range_order data (world st)) data Hnull) as [data' ->].
  rewrite determineSampleRate_eq. cbn zeta.
  set (key := sample_key samplingFields data').
  assert (Hone : clamp (sampler_GetSampleRate key (world st)).1 = 1).
  { unfold clamp. specialize (Hrate key (world st)).
    destruct (Z.ltb_spec (sampler_GetSampleRate key (world st)).1 1); lia. }
  rewrite Hone.
  assert (((rand_draw 1 (sampler_GetSampleRate key (world st)).2).1 =? 0)
          = true) as ->.
  { apply Z.eqb_eq. specialize (Hdraw 1 (sampler_GetSampleRate key
      (world st)).2). lia. }
  destruct (ev_Add _ data') as [ev|] eqn:Hev; [|by apply Hadd in Hev].
  specialize (Hsend ev (rand_draw 1 (sampler_GetSampleRate key
    (world st)).2).2).
  destruct (ev_SendPresampled ev _) as [sent w']. simpl in Hsend. subst sent.
  by exists w'.
Qed.

(** X12: with a sampler that answers no rate above 1 and a sink that takes
    every event, every line that decodes (to a record without null) is
    forwarded: [success] is the number of lines that decode. *)
Theorem rate_one_keeps_every_line (body : bufio.Reader) (w : World) :
  (∀ n wa, 0 < n → 0 ≤ (rand_draw n wa).1 < n) →
  (∀ key wa, (sampler_GetSampleRate key wa).1 ≤ 1) →
  (∀ ev d, ev_Add ev d ≠ None) →
  (∀ ev wa, (ev_SendPresampled ev wa).1 = true) →
  (∀ rawData data k,
     rawData ∈ bufio.Scan MaxLineLength body →
     json_Unmarshal rawData = Some data → data !! k ≠ Some VNull) →
  Z.of_nat (length (bufio.Scan MaxLineLength body)) < 2 ^ 63 →
  ∃ resp,
    readNewData samplingFields urlFields body w = Ok resp
    ∧ status resp = 200
    ∧ reported_total resp
      = Z.of_nat (length (bufio.Scan MaxLineLength body))
    ∧ reported_success resp
      = Z.of_nat (length (List.filter is_decodable
                            (bufio.Scan MaxLineLength body))).
Proof.
  intros Hdraw Hrate Hadd Hsend Hnull Hlen. unfold readNewData.
  assert (Hloop : ∀ lines st,
    (∀ rawData data k, rawData ∈ lines →
       json_Unmarshal rawData = Some data → data !! k ≠ Some VNull) →
    0 ≤ success st ≤ total st →
    total st + Z.of_nat (length lines) < 2 ^ 63 →
    ∃ st', scan_loop samplingFields urlFields lines st = Exhausted st'
           ∧ total st' = total st + Z.of_nat (length lines)
           ∧ success st'
             = success st
               + Z.of_nat (length (List.filter is_decodable lines))).
  { induction lines as [|rawData lines IH]; intros st Hn Hsucc Htotal.
    - exists st. simpl. repeat split; lia.
    - cbn [scan_loop length List.filter] in *. unfold is_decodable at 1.
      destruct (json_Unmarshal rawData) as [data|] eqn:Hdata.
      + destruct (scan_body_kept rawData data st Hdraw Hrate Hadd Hsend
                    Hdata) as [w' ->].
        { intros k. apply (Hn rawData data k); [by left | done]. }
        destruct (IH {| total := int_incr (total st);
                        success := int_incr (success st);
                        printed := printed st; world := w' |})
          as (st' & -> & Ht & Hs).
        * intros raw d k Hraw. apply Hn. by right.
        * cbn [total success]. rewrite !int_incr_small by lia. lia.
        * cbn [total]. rewrite int_incr_small by lia. lia.
        * exists st'. cbn [total success length] in *.
          rewrite !int_incr_small in * by lia. repeat split; lia.
      + unfold scan_body. rewrite Hdata.
        destruct (IH (print (JsonParsingError rawData)
                        {| total := int_incr (total st);
                           success := success st;
                           printed := printed st; world := world st |}))
          as (st' & -> & Ht & Hs).
        * intros raw d k Hraw. apply Hn. by right.
        * cbn [total success print]. rewrite !int_incr_small by lia. lia.
        * cbn [total print]. rewrite int_incr_small by lia. lia.
        * exists st'. cbn [total success print] in *.
          rewrite !int_incr_small in * by lia. repeat split; lia. }
  destruct (Hloop (bufio.Scan MaxLineLength body)
              {| total := 0; success := 0; printed := []; world := w |}
              Hnull ltac:(simpl; lia) ltac:(simpl; lia))
    as (st' & -> & Ht & Hs).
  eexists. split; [done|]. cbn in *. repeat split; lia.
Qed.

End IngestionMore.

(** ** Further properties: startup *)

Lemma strings_Split_not_nil (s : string) (sep : ascii) :
  strings_Split s sep ≠ [].
Proof.
  induction s as [|c s IH]; simpl; [done|].
  destruct (Ascii.eqb c sep); [done|]. by destruct (strings_Split s sep).
Qed.

Lemma strings_Join_head (c : ascii) (x : string) (l : list string)
    (sep : string) :
  strings_Join (String c x :: l) sep = String c (strings_Join (x :: l) sep).
Proof. by destruct l. Qed.

Lemma strings_Join_Split (s : string) (sep : ascii) :
  strings_Join (strings_Split s sep) (String sep "") = s.
Proof.
  induction s as [|c s IH]; [done|]. cbn [strings_Split].
  pose proof (strings_Split_not_nil s sep) as Hne.
  destruct (Ascii.eqb_spec c sep) as [->|_];
    destruct (strings_Split s sep) as [|piece pieces]; try done.
  - rewrite strings_Join_cons. cbn [String.append]. by rewrite IH.
  - by rewrite strings_Join_head, IH.
Qed.

Lemma strings_Split_pieces (s : string) (sep : ascii) :
  Forall (fun piece => has_byte sep piece = false) (strings_Split s sep).
Proof.
  induction s as [|c s IH]; simpl; [by repeat constructor|].
  destruct (Ascii.eqb c sep) eqn:Hc; [by constructor|].
  destruct (strings_Split s sep) as [|piece pieces].
  - constructor; [|done]. simpl. by rewrite Hc.
  - apply Forall_cons in IH as [Hpiece Hpieces].
    constructor; [|done]. simpl. by rewrite Hc.
Qed.

Lemma strings_Split_piece (piece : string) (sep : ascii) (tail : string) :
  has_byte sep piece = false →
  strings_Split (piece +:+ String sep tail) sep
  = piece :: strings_Split tail sep.
Proof.
  intros Hpiece. induction piece as [|c piece IH]; simpl in *.
  - by rewrite Ascii.eqb_refl.
  - apply orb_false_elim in Hpiece as [Hc Hpiece].
    by rewrite Hc, IH.
Qed.

Lemma strings_Split_whole (piece : string) (sep : ascii) :
  has_byte sep piece = false → strings_Split piece sep = [piece].
Proof.
  intros Hpiece. induction piece as [|c piece IH]; simpl in *; [done|].
  apply orb_false_elim in Hpiece as [Hc Hpiece].
  by rewrite Hc, IH.
Qed.

Lemma strings_Split_Join (pieces : list string) (sep : ascii) :
  pieces ≠ [] →
  Forall (fun piece => has_byte sep piece = false) pieces →
  strings_Split (strings_Join pieces (String sep "")) sep = pieces.
Proof.
  intros Hne Hpieces.
  induction Hpieces as [|x [|y l] Hx Hl IH]; [done | |].
  - by apply strings_Split_whole.
  - rewrite strings_Join_cons. cbn [String.append].
    rewrite strings_Split_piece by done. f_equal. by apply IH.
Qed.

Section MainConfig.

Variable Getenv : string → string.
Variable libhoney_Init : string → string → bool.
Variable strconv_Atoi : string → option Z.
Variable sampler_Start : Z → bool.

Lemma main_serves (conf : Config) :
  main Getenv libhoney_Init strconv_Atoi sampler_Start = Serve conf →
  Getenv "HONEYCOMB_SAMPLING_FIELDS" ≠ ""
  ∧ conf_samplingFields conf
    = strings_Split (Getenv "HONEYCOMB_SAMPLING_FIELDS") ","
  ∧ conf_urlFields conf
    = strings_Split (Getenv "HONEYCOMB_URL_FIELDS") ",".
Proof.
  unfold main. destruct (negb _); [done|].
  destruct (Nat.eqb_spec (String.length (Getenv "HONEYCOMB_SAMPLING_FIELDS"))
              0) as [|Hlen]; [done|].
  destruct (negb _); [done|]. intros [= <-]. split; [|done].
  intros Hempty. by rewrite Hempty in Hlen.
Qed.

(** X13: when [main] goes on to serve, it has at least one sampling field
    and at least one URL field; no field name holds a comma; and the names
    joined with commas are the two environment variables again. *)
Theorem main_configuration (conf : Config) :
  main Getenv libhoney_Init strconv_Atoi sampler_Start = Serve conf →
  conf_samplingFields conf ≠ []
  ∧ conf_urlFields conf ≠ []
  ∧ Forall (fun f => has_byte "," f = false)
      (conf_samplingFields conf ++ conf_urlFields conf)
  ∧ strings_Join (conf_samplingFields conf) ","
    = Getenv "HONEYCOMB_SAMPLING_FIELDS"
  ∧ strings_Join (conf_urlFields conf) ","
    = Getenv "HONEYCOMB_URL_FIELDS".
Proof.
  intros (_ & -> & ->)%main_serves.
  split; [apply strings_Split_not_nil|].
  split; [apply strings_Split_not_nil|].
  split; [apply Forall_app; split; apply strings_Split_pieces|].
  split; apply strings_Join_Split.
Qed.

(** X14: the sampling fields are read back as they were written: when the
    variable is the comma-joined list of names without commas, [main]
    serves with exactly those names, in order. *)
Theorem main_reads_sampling_fields (conf : Config) (names : list string) :
  names ≠ [] →
  Forall (fun f => has_byte "," f = false) names →
  Getenv "HONEYCOMB_SAMPLING_FIELDS" = strings_Join names "," →
  main Getenv libhoney_Init strconv_Atoi sampler_Start = Serve conf →
  conf_samplingFields conf = names.
Proof.
  intros Hne Hnames Henv (_ & -> & _)%main_serves.
  rewrite Henv. by apply strings_Split_Join.
Qed.

End MainConfig.

Section MainUrlFields.

Context `{Externals}.
Variable Getenv : string → string.
Variable libhoney_Init : string → string → bool.
Variable strconv_Atoi : string → option Z.
Variable sampler_Start : Z → bool.

(** X15: when HONEYCOMB_URL_FIELDS is not set, [main] serves with one URL
    field, the empty name: the normalizer decomposes the field whose name
    is empty, and a record without such a field is only flattened. *)
Theorem unset_url_fields (conf : Config) (order : list string)
    (data data' : record) :
  Getenv "HONEYCOMB_URL_FIELDS" = "" →
  main Getenv libhoney_Init strconv_Atoi sampler_Start = Serve conf →
  produces data order →
  cleanData (conf_urlFields conf) order data = Ok data' →
  conf_urlFields conf = [""]
  ∧ (data !! "" = None → data' = flatten <$> data)
  ∧ (∀ v res,
       data !! "" = Some v →
       shaper_Parse (Sprintf v) = Some res →
       data' !! ".path" = Some (VString (Path res))
       ∧ data' !! ".uri" = Some (VString (URI res))).
Proof.
  intros Hunset (_ & _ & Hurl)%main_serves Horder Hrun.
  rewrite Hunset in Hurl. cbn in Hurl. rewrite Hurl in *.
  rewrite (cleanData_closed order data data' Horder Hrun).
  split; [done|]. unfold derived. split.
  - intros ->. by rewrite (left_id_L ∅ (∪)).
  - intros v res -> Hparse. unfold url_loop.
    rewrite decide_True, Hparse by done.
    destruct (shape_fields_lookups "" res ∅)
      as (Hpath & _ & _ & _ & _ & _ & Huri).
    split; apply lookup_union_Some_l; [exact Hpath | exact Huri].
Qed.

End MainUrlFields.

(** ** The further properties on concrete inputs *)

Section MoreExamples.

#[local] Existing Instance demo.

Lemma user_record_no_null (k : string) : user_record !! k ≠ Some VNull.
Proof.
  unfold user_record. rewrite lookup_insert. case_decide; [done|].
  rewrite lookup_singleton. by case_decide.
Qed.

Lemma demo_main_serves : demo_main = Serve demo_conf.
Proof. vm_compute. reflexivity. Qed.

Lemma scanned_lines_are_bounded_witness :
  "oops" ∈ bufio.Scan MaxLineLength (http_body ten_lines)
  ∧ Z.of_nat (String.length "oops") ≤ MaxLineLength
  ∧ bufio.no_newline "oops" = true
  ∧ (bufio.eof_with_data (http_body ten_lines) = false →
     Z.of_nat (String.length "oops") < MaxLineLength).
Proof.
  assert (H1 : "oops" ∈ bufio.Scan MaxLineLength (http_body ten_lines)).
  { apply list_elem_of_In. vm_compute. right. left. reflexivity. }
  split; [exact H1|].
  exact (scanned_lines_are_bounded (http_body ten_lines) "oops" H1).
Defined.

Lemma Scan_lines_round_trip_witness :
  Forall (fun line => fits MaxLineLength line = true)
    [(line_user, false); ("oops", true); (line_empty, false)]
  ∧ bufio.Scan MaxLineLength
      {| bufio.content :=
           lines_body
             [(line_user, false); ("oops", true); (line_empty, false)]
           +:+ "{";
         bufio.eof_with_data := true |}
    = [(line_user, false); ("oops", true); (line_empty, false)].*1
      ++ bufio.Scan MaxLineLength
           {| bufio.content := "{"; bufio.eof_with_data := true |}.
Proof.
  assert (H1 : Forall (fun line => fits MaxLineLength line = true)
                 [(line_user, false); ("oops", true); (line_empty, false)]).
  { repeat (constructor; [vm_compute; reflexivity|]). constructor. }
  split; [exact H1|].
  exact (Scan_lines_round_trip _ "{" true H1).
Defined.

Lemma last_line_at_the_limit_witness :
  Forall (fun line => fits MaxLineLength line = true) [(line_user, false)]
  ∧ bufio.no_newline long_line = true
  ∧ ends_in_CR long_line = false
  ∧ Z.of_nat (String.length long_line) = MaxLineLength
  ∧ bufio.Scan MaxLineLength
      {| bufio.content := lines_body [(line_user, false)] +:+ long_line;
         bufio.eof_with_data := true |}
    = [(line_user, false)].*1 ++ (if true then [long_line] else []).
Proof.
  assert (H1 : Forall (fun line => fits MaxLineLength line = true)
                 [(line_user, false)]).
  { constructor; [vm_compute; reflexivity | constructor]. }
  assert (H2 : bufio.no_newline long_line = true)
    by (vm_compute; reflexivity).
  assert (H3 : ends_in_CR long_line = false) by (vm_compute; reflexivity).
  assert (H4 : Z.of_nat (String.length long_line) = MaxLineLength)
    by (vm_compute; reflexivity).
  split; [exact H1|]. split; [exact H2|]. split; [exact H3|].
  split; [exact H4|].
  exact (last_line_at_the_limit [(line_user, false)] long_line true
           H1 H2 H3 H4).
Defined.

Lemma cleanData_any_order_witness :
  produces user_record (keys_of user_record)
  ∧ (∀ k, user_record !! k ≠ Some VNull)
  ∧ cleanData ["path"] (keys_of user_record) user_record
    = Ok (derived ["path"] user_record ∪ (flatten <$> user_record)).
Proof.
  split; [exact (produces_keys_of user_record)|].
  split; [exact user_record_no_null|].
  exact (cleanData_any_order ["path"] (keys_of user_record) user_record
           (produces_keys_of user_record) user_record_no_null).
Defined.

Lemma null_outside_derived_panics_witness :
  produces null_record (keys_of null_record)
  ∧ null_record !! "a" = Some VNull
  ∧ derived ["path"] null_record !! "a" = None
  ∧ cleanData ["path"] (keys_of null_record) null_record = Panic.
Proof.
  assert (H1 := produces_keys_of null_record).
  assert (H2 : null_record !! "a" = Some VNull) by reflexivity.
  assert (H3 : derived ["path"] null_record !! "a" = None)
    by (vm_compute; reflexivity).
  split; [exact H1|]. split; [exact H2|]. split; [exact H3|].
  exact (null_outside_derived_panics ["path"] _ _ "a" H1 H2 H3).
Defined.

Lemma cleanData_keeps_fields_witness :
  produces user_record (keys_of user_record)
  ∧ cleanData ["path"] (keys_of user_record) user_record
    = Ok user_record_cleaned
  ∧ dom user_record_cleaned
    = dom (derived ["path"] user_record) ∪ dom user_record
  ∧ ∀ k v, user_record !! k = Some v →
           derived ["path"] user_record !! k = None →
           user_record_cleaned !! k = Some (flatten v).
Proof.
  assert (H1 := produces_keys_of user_record).
  assert (H2 : cleanData ["path"] (keys_of user_record) user_record
               = Ok user_record_cleaned) by (vm_compute; reflexivity).
  split; [exact H1|]. split; [exact H2|].
  exact (cleanData_keeps_fields ["path"] _ user_record user_record_cleaned
           H1 H2).
Defined.

Lemma url_field_list_is_parsed_in_brackets_witness :
  produces list_url_record (keys_of list_url_record)
  ∧ list_url_record !! "path" = Some (VList abc)
  ∧ cleanData ["path"] (keys_of list_url_record) list_url_record
    = Ok {[ "path" := VString "a,b,c" ]}
  ∧ ({[ "path" := VString "a,b,c" ]} : record) !! "path"
    = Some (VString (strings_Join (List.map Sprintf abc) ",")).
Proof.
  assert (H1 := produces_keys_of list_url_record).
  assert (H2 : list_url_record !! "path" = Some (VList abc)) by reflexivity.
  assert (H3 : cleanData ["path"] (keys_of list_url_record) list_url_record
               = Ok {[ "path" := VString "a,b,c" ]})
    by (vm_compute; reflexivity).
  split; [exact H1|]. split; [exact H2|]. split; [exact H3|].
  pose proof (url_field_list_is_parsed_in_brackets "path" [] _ _ _ abc
                H1 H2 H3) as [Hfield _].
  exact Hfield.
Defined.

Lemma key_without_fields_witness :
  (∀ f, f ∈ ["user"; "path"] → (∅ : record) !! f = None)
  ∧ key_of (determineSampleRate ["user"; "path"] ∅ 0)
    = Some (strings_Join (replicate (length ["user"; "path"]) "")
              KeySeperatorChar)
  ∧ String.length
      (strings_Join (replicate (length ["user"; "path"]) "")
         KeySeperatorChar)
    = (7 * (length ["user"; "path"] - 1))%nat.
Proof.
  assert (H1 : ∀ f, f ∈ ["user"; "path"] → (∅ : record) !! f = None)
    by (intros f _; apply lookup_empty).
  split; [exact H1|].
  exact (key_without_fields ["user"; "path"] ∅ 0 H1).
Defined.

Lemma key_collides_on_separator_witness :
  sep_at_end_record !! "user" = Some (VString ("x" +:+ KeySeperatorChar))
  ∧ sep_at_end_record !! "path" = Some (VString "y")
  ∧ sep_at_start_record !! "user" = Some (VString "x")
  ∧ sep_at_start_record !! "path" = Some (VString (KeySeperatorChar +:+ "y"))
  ∧ key_of (determineSampleRate ["user"; "path"] sep_at_end_record 0)
    = key_of (determineSampleRate ["user"; "path"] sep_at_start_record 3).
Proof.
  assert (H1 : sep_at_end_record !! "user"
               = Some (VString ("x" +:+ KeySeperatorChar))) by reflexivity.
  assert (H2 : sep_at_end_record !! "path" = Some (VString "y"))
    by reflexivity.
  assert (H3 : sep_at_start_record !! "user" = Some (VString "x"))
    by reflexivity.
  assert (H4 : sep_at_start_record !! "path"
               = Some (VString (KeySeperatorChar +:+ "y"))) by reflexivity.
  split; [exact H1|]. split; [exact H2|]. split; [exact H3|].
  split; [exact H4|].
  exact (key_collides_on_separator "user" "path" "x" "y" sep_at_end_record
           sep_at_start_record 0 3 H1 H2 H3 H4).
Defined.

Lemma key_determines_positions_witness :
  (∀ f, f ∈ ["user"] →
        has_byte separator_lead (key_position user_record f) = false
        ∧ has_byte separator_lead
            (key_position {[ "user" := VString "a" ]} f) = false)
  ∧ key_of (determineSampleRate ["user"] user_record 0)
    = key_of (determineSampleRate ["user"] {[ "user" := VString "a" ]} 3)
  ∧ ∀ f, f ∈ ["user"] →
         key_position user_record f
         = key_position {[ "user" := VString "a" ]} f.
Proof.
  assert (H1 : ∀ f, f ∈ ["user"] →
            has_byte separator_lead (key_position user_record f) = false
            ∧ has_byte separator_lead
                (key_position {[ "user" := VString "a" ]} f) = false).
  { intros f ->%list_elem_of_singleton. split; reflexivity. }
  assert (H2 : key_of (determineSampleRate ["user"] user_record 0)
               = key_of (determineSampleRate ["user"]
                           {[ "user" := VString "a" ]} 3))
    by (vm_compute; reflexivity).
  split; [exact H1|]. split; [exact H2|].
  exact (key_determines_positions ["user"] user_record
           {[ "user" := VString "a" ]} 0 3 H1 H2).
Defined.

Lemma malformed_body_touches_nothing_witness :
  (∀ rawData, rawData ∈ bufio.Scan MaxLineLength (http_body bad_lines) →
              json_Unmarshal rawData = None)
  ∧ Z.of_nat (length (bufio.Scan MaxLineLength (http_body bad_lines))) < 2 ^ 63
  ∧ readNewData ["user"] ["path"] (http_body bad_lines) 5
    = Ok {| status := 200;
            reported_success := 0;
            reported_total :=
              Z.of_nat (length (bufio.Scan MaxLineLength (http_body bad_lines)));
            output :=
              (JsonParsingError <$> bufio.Scan MaxLineLength (http_body bad_lines))
              ++ [Sampled 0
                    (Z.of_nat (length (bufio.Scan MaxLineLength (http_body bad_lines))))];
            after := 5 |}.
Proof.
  assert (H1 : ∀ rawData, rawData ∈ bufio.Scan MaxLineLength (http_body bad_lines) →
                 json_Unmarshal rawData = None).
  { intros rawData Hin. apply list_elem_of_In in Hin. vm_compute in Hin.
    destruct Hin as [<-|[<-|[]]]; reflexivity. }
  assert (H2 : Z.of_nat (length (bufio.Scan MaxLineLength (http_body bad_lines)))
               < 2 ^ 63) by (vm_compute; reflexivity).
  split; [exact H1|]. split; [exact H2|].
  exact (malformed_body_touches_nothing ["user"] ["path"] (http_body bad_lines) 5 H1 H2).
Defined.

Lemma output_accounts_for_lines_witness :
  Z.of_nat (length (bufio.Scan MaxLineLength (http_body ten_lines))) < 2 ^ 63
  ∧ readNewData ["user"] ["path"] (http_body ten_lines) 0
    = Ok {| status := 200; reported_success := 5; reported_total := 10;
            output := [JsonParsingError "oops"; JsonParsingError "{";
                       JsonParsingError "}"; EventSendError line_empty;
                       Sampled 5 10];
            after := 7 |}
  ∧ length (List.filter is_parse_error
              [JsonParsingError "oops"; JsonParsingError "{";
               JsonParsingError "}"; EventSendError line_empty;
               Sampled 5 10])
    = length (List.filter (fun l => negb (is_decodable l))
                (bufio.Scan MaxLineLength (http_body ten_lines))).
Proof.
  assert (H1 : Z.of_nat (length (bufio.Scan MaxLineLength (http_body ten_lines)))
               < 2 ^ 63) by (vm_compute; reflexivity).
  split; [exact H1|]. split; [exact ten_lines_summary|].
  pose proof (output_accounts_for_lines ["user"] ["path"] (http_body ten_lines) 0 _
                H1 ten_lines_summary) as (Hparse & _ & _).
  exact Hparse.
Defined.

End MoreExamples.

Section KeepAllExamples.

#[local] Existing Instance keep_all.

Lemma rate_one_keeps_every_line_witness :
  (∀ n wa, 0 < n → 0 ≤ (rand_draw n wa).1 < n)
  ∧ (∀ key wa, (sampler_GetSampleRate key wa).1 ≤ 1)
  ∧ (∀ ev d, ev_Add ev d ≠ None)
  ∧ (∀ ev wa, (ev_SendPresampled ev wa).1 = true)
  ∧ (∀ rawData data k,
       rawData ∈ bufio.Scan MaxLineLength (http_body three_lines) →
       json_Unmarshal rawData = Some data → data !! k ≠ Some VNull)
  ∧ Z.of_nat (length (bufio.Scan MaxLineLength (http_body three_lines))) < 2 ^ 63
  ∧ ∃ resp,
      readNewData ["user"] ["path"] (http_body three_lines) 0 = Ok resp
      ∧ status resp = 200
      ∧ reported_total resp
        = Z.of_nat (length (bufio.Scan MaxLineLength (http_body three_lines)))
      ∧ reported_success resp
        = Z.of_nat (length (List.filter is_decodable
                              (bufio.Scan MaxLineLength (http_body three_lines)))).
Proof.
  assert (H1 : ∀ n wa, 0 < n → 0 ≤ (rand_draw n wa).1 < n).
  { intros n wa Hn. simpl. by apply Z.mod_pos_bound. }
  assert (H2 : ∀ key wa, (sampler_GetSampleRate key wa).1 ≤ 1)
    by (intros; simpl; lia).
  assert (H3 : ∀ ev d, ev_Add ev d ≠ None) by done.
  assert (H4 : ∀ ev wa, (ev_SendPresampled ev wa).1 = true) by done.
  assert (H5 : ∀ rawData data k,
            rawData ∈ bufio.Scan MaxLineLength (http_body three_lines) →
            json_Unmarshal rawData = Some data → data !! k ≠ Some VNull).
  { intros rawData data k Hin Hdata. cbn in Hdata.
    unfold demo_Unmarshal in Hdata.
    repeat case_decide; simplify_eq.
    - by rewrite lookup_empty.
    - apply list_elem_of_In in Hin. vm_compute in Hin.
      destruct Hin as [Hin|[Hin|[Hin|[]]]]; discriminate Hin.
    - apply user_record_no_null. }
  assert (H6 : Z.of_nat (length (bufio.Scan MaxLineLength (http_body three_lines)))
               < 2 ^ 63) by (vm_compute; reflexivity).
  split; [exact H1|]. split; [exact H2|]. split; [exact H3|].
  split; [exact H4|]. split; [exact H5|]. split; [exact H6|].
  exact (rate_one_keeps_every_line ["user"] ["path"] (http_body three_lines) 0
           H1 H2 H3 H4 H5 H6).
Defined.

End KeepAllExamples.

Lemma main_configuration_witness :
  main demo_Getenv (fun _ _ => true) (fun _ => None) (fun _ => true)
  = Serve demo_conf
  ∧ conf_samplingFields demo_conf ≠ []
  ∧ conf_urlFields demo_conf ≠ []
  ∧ Forall (fun f => has_byte "," f = false)
      (conf_samplingFields demo_conf ++ conf_urlFields demo_conf)
  ∧ strings_Join (conf_samplingFields demo_conf) ","
    = demo_Getenv "HONEYCOMB_SAMPLING_FIELDS"
  ∧ strings_Join (conf_urlFields demo_conf) ","
    = demo_Getenv "HONEYCOMB_URL_FIELDS".
Proof.
  split; [exact demo_main_serves|].
  exact (main_configuration demo_Getenv (fun _ _ => true) (fun _ => None)
           (fun _ => true) demo_conf demo_main_serves).
Defined.

Lemma main_reads_sampling_fields_witness :
  ["user"; "path"] ≠ []
  ∧ Forall (fun f => has_byte "," f = false) ["user"; "path"]
  ∧ demo_Getenv "HONEYCOMB_SAMPLING_FIELDS"
    = strings_Join ["user"; "path"] ","
  ∧ main demo_Getenv (fun _ _ => true) (fun _ => None) (fun _ => true)
    = Serve demo_conf
  ∧ conf_samplingFields demo_conf = ["user"; "path"].
Proof.
  assert (H1 : ["user"; "path"] ≠ @nil string) by done.
  assert (H2 : Forall (fun f => has_byte "," f = false) ["user"; "path"])
    by (repeat constructor).
  assert (H3 : demo_Getenv "HONEYCOMB_SAMPLING_FIELDS"
               = strings_Join ["user"; "path"] ",") by reflexivity.
  split; [exact H1|]. split; [exact H2|]. split; [exact H3|].
  split; [exact demo_main_serves|].
  exact (main_reads_sampling_fields demo_Getenv (fun _ _ => true)
           (fun _ => None) (fun _ => true) demo_conf ["user"; "path"]
           H1 H2 H3 demo_main_serves).
Defined.

Lemma unset_url_fields_witness :
  demo_Getenv "HONEYCOMB_URL_FIELDS" = ""
  ∧ main demo_Getenv (fun _ _ => true) (fun _ => None) (fun _ => true)
    = Serve demo_conf
  ∧ produces user_record (keys_of user_record)
  ∧ cleanData (H := demo) (conf_urlFields demo_conf) (keys_of user_record)
      user_record
    = Ok user_record
  ∧ conf_urlFields demo_conf = [""]
  ∧ (user_record !! "" = None
     → user_record = flatten (H := demo) <$> user_record).
Proof.
  assert (H1 : demo_Getenv "HONEYCOMB_URL_FIELDS" = "") by reflexivity.
  assert (H3 := produces_keys_of user_record).
  assert (H4 : cleanData (H := demo) (conf_urlFields demo_conf)
                 (keys_of user_record) user_record = Ok user_record)
    by (vm_compute; reflexivity).
  split; [exact H1|]. split; [exact demo_main_serves|].
  split; [exact H3|]. split; [exact H4|].
  pose proof (unset_url_fields (H := demo) demo_Getenv (fun _ _ => true)
                (fun _ => None) (fun _ => true) demo_conf
                (keys_of user_record) user_record user_record
                H1 demo_main_serves H3 H4) as (Hurl & Hnone & _).
  split; [exact Hurl | exact Hnone].
Defined.
